(** * Meal Maker: the recipe matching engine

    A shallow embedding of [suggest_recipes] from [MealMakerPrototypeGUI.py]
    (the overlap-fraction scorer), of the module-level catalog [recipes] it
    reads, and of the text pipeline of [MealMakerShell.on_search] that feeds
    it, followed by the properties of the ranking that the design document
    states.

    Modelling conventions.
    - A Python [str] is a [string]; each character is read as a code point
      below 256, and [str.lower], [str.strip], [str.split] follow Python's
      tables on that range.
    - A Python [set] of strings is a [gset string]; [len] of a set is [size].
    - [a / b] on integers is Python's true division: it raises
      [ZeroDivisionError] on a zero divisor and otherwise yields the
      quotient, kept as the exact rational in lowest terms.  The quotients in
      this program have a numerator and a denominator bounded by the length
      of one recipe's ingredient list; below 2^26 ingredients the rounded
      binary64 quotients are ordered and equal exactly as these rationals.
    - The module-level list [recipes] lives in a store that every operation
      receives and returns; a raised exception is the left injection. *)

From Stdlib Require Import ZArith QArith List Ascii String Permutation Sorted.
From stdpp Require Import base list gmap strings.

Open Scope string_scope.
Open Scope list_scope.
Open Scope nat_scope.

(** ** Python strings *)

Module PyStr.

Definition code (c : ascii) : N := N_of_ascii c.

(** [str.isspace] on one character: TAB..CR, FS..US, SPACE, NEL, NBSP. *)
Definition isspace (c : ascii) : bool :=
  let n := code c in
  ((9 <=? n) && (n <=? 13) || (28 <=? n) && (n <=? 32)
   || (n =? 133) || (n =? 160))%N.

(** [str.lower] on one character: A..Z and the Latin-1 capitals. *)
Definition lower_char (c : ascii) : ascii :=
  let n := code c in
  if ((65 <=? n) && (n <=? 90)
      || (192 <=? n) && (n <=? 222) && negb (n =? 215))%N
  then ascii_of_N (n + 32) else c.

Fixpoint lower (s : string) : string :=
  match s with
  | EmptyString => EmptyString
  | String c s' => String (lower_char c) (lower s')
  end.

Fixpoint lstrip (s : string) : string :=
  match s with
  | EmptyString => EmptyString
  | String c s' => if isspace c then lstrip s' else s
  end.

Fixpoint rstrip (s : string) : string :=
  match s with
  | EmptyString => EmptyString
  | String c s' =>
      match rstrip s' with
      | EmptyString => if isspace c then EmptyString else String c EmptyString
      | r => String c r
      end
  end.

(** [s.strip()] *)
Definition strip (s : string) : string := rstrip (lstrip s).

(** Truth value of a string in a condition: non-empty. *)
Definition truthy (s : string) : bool :=
  match s with EmptyString => false | String _ _ => true end.

(** [s.replace(",", " ")] *)
Fixpoint replace_comma (s : string) : string :=
  match s with
  | EmptyString => EmptyString
  | String c s' =>
      String (if Ascii.eqb c ","%char then " "%char else c) (replace_comma s')
  end.

(** [s.split()]: the maximal runs of non-space characters, in order.
    [cur] is the run being read, most recent character first. *)
Definition flush (cur : list ascii) (acc : list string) : list string :=
  match cur with
  | [] => acc
  | _ => string_of_list_ascii (rev cur) :: acc
  end.

Fixpoint split_from (s : string) (cur : list ascii) : list string :=
  match s with
  | EmptyString => flush cur []
  | String c s' =>
      if isspace c then flush cur (split_from s' [])
      else split_from s' (c :: cur)
  end.

Definition split (s : string) : list string := split_from s [].

End PyStr.

(** ** Data model *)

(** One entry of the catalog: a dict with the keys ["name"],
    ["ingredients"], ["instructions"] and ["tags"]. *)
Record Recipe := mkRecipe {
  r_name : string;
  r_ingredients : list string;
  r_instructions : string;
  r_tags : list string
}.

(** One entry of the result: the dict that the loop of [suggest_recipes]
    appends to [scored]. *)
Record Suggestion := mkSuggestion {
  name : string;
  score : Q;
  ingredients : list string;
  instructions : string
}.

(** The module-level catalog. *)
Definition recipes : list Recipe :=
  [ mkRecipe "Vegetable Omelette"
      ["eggs"; "onion"; "tomato"; "spinach"; "salt"; "pepper"]
      "Whisk eggs. Cook chopped veggies in a pan. Add eggs and fold."
      ["breakfast"; "fast"; "healthy"];
    mkRecipe "Pasta with Tomato Sauce"
      ["pasta"; "tomato"; "garlic"; "olive oil"; "salt"; "basil"]
      "Boil pasta. Simmer garlic and tomato sauce. Mix."
      ["lunch"; "easy"];
    mkRecipe "Mexican Chicken Tacos"
      ["chicken"; "tortillas"; "onion"; "cilantro"; "lime"]
      (String.append "Saut"
         (String (ascii_of_nat 233) " chicken. Warm tortillas. Add toppings."))
      ["latin"; "protein"];
    mkRecipe "Lentil Soup"
      ["lentils"; "carrot"; "onion"; "celery"; "garlic"; "salt"]
      "Simmer all ingredients for 30 min."
      ["vegan"; "cheap"; "batch-cooking"];
    mkRecipe "Fried Rice"
      ["rice"; "egg"; "carrot"; "pea"; "soy sauce"; "onion"]
      "Stir fry ingredients in wok."
      ["asian"; "use-leftovers"];
    mkRecipe "Chicken Rice Bowl"
      ["rice"; "chicken"; "soy sauce"; "carrot"; "onion"]
      "Cook rice. Stir fry chicken and veggies."
      ["balanced"];
    mkRecipe "Guacamole"
      ["avocado"; "onion"; "tomato"; "lime"; "cilantro"; "salt"]
      "Mash avocado. Mix chopped ingredients."
      ["dip"; "healthy"; "snack"];
    mkRecipe "Greek Salad"
      ["tomato"; "cucumber"; "olive oil"; "onion"; "feta"; "oregano"]
      "Chop and mix all ingredients."
      ["veggie"; "fresh"; "low-cal"];
    mkRecipe "Fruit Yogurt Bowl"
      ["yogurt"; "banana"; "berries"; "honey"; "granola"]
      "Layer yogurt, fruit and granola."
      ["breakfast"; "healthy"];
    mkRecipe "Stir-Fry Veggies"
      ["broccoli"; "carrot"; "pepper"; "soy sauce"; "garlic"]
      "Stir fry on high heat."
      ["vegan"; "fast"] ].

(** ** Store, exceptions and the monad the code runs in *)

Inductive exn := ZeroDivisionError.

(** The module globals that [suggest_recipes] can reach. *)
Record globals := mkGlobals { g_recipes : list Recipe }.

Definition module_globals : globals := mkGlobals recipes.

Definition M (A : Type) : Type := globals -> (exn + A) * globals.

Definition ret {A} (a : A) : M A := fun g => (inr a, g).

Definition raise {A} (e : exn) : M A := fun g => (inl e, g).

Definition bind {A B} (m : M A) (k : A -> M B) : M B :=
  fun g =>
    match m g with
    | (inr a, g') => k a g'
    | (inl e, g') => (inl e, g')
    end.

Notation "'let*' x ':=' m 'in' k" := (bind m (fun x => k))
  (at level 10, x name, m at level 100, k at level 200).

(** Reading the global [recipes]. *)
Definition read_recipes : M (list Recipe) := fun g => (inr (g_recipes g), g).

(** [for x in xs: body], with the loop-carried local as accumulator. *)
Fixpoint for_each {A S : Type} (xs : list A) (body : A -> S -> M S) (acc : S)
  : M S :=
  match xs with
  | [] => ret acc
  | x :: xs' => let* acc' := body x acc in for_each xs' body acc'
  end.

(** ** Python built-ins used by the engine *)

(** [a / b] on integers. *)
Definition truediv (a b : Z) : M Q :=
  if (b =? 0)%Z then raise ZeroDivisionError
  else ret (Qred (Qmake (a * Z.sgn b) (Z.to_pos (Z.abs b)))).

(** [l.sort(key=key, reverse=True)]: the sort is stable, also when
    reversed, so among equal keys the earlier element stays first.
    [insert_desc] puts [x], which came before every element of [l], in
    front of the first element whose key does not exceed its own. *)
Fixpoint insert_desc {A} (key : A -> Q) (x : A) (l : list A) : list A :=
  match l with
  | [] => [x]
  | y :: l' =>
      if Qle_bool (key y) (key x) then x :: y :: l'
      else y :: insert_desc key x l'
  end.

Fixpoint sort_desc {A} (key : A -> Q) (l : list A) : list A :=
  match l with
  | [] => []
  | x :: l' => insert_desc key x (sort_desc key l')
  end.

(** [l[:k]]: a negative bound counts from the end. *)
Definition slice_to {A} (l : list A) (k : Z) : list A :=
  if (k <? 0)%Z then take (Z.to_nat (Z.of_nat (length l) + k)) l
  else take (Z.to_nat k) l.

(** ** The engine *)

(** [set(map(str.lower, [i.strip() for i in user_ingredients if i.strip()]))] *)
Definition user_set_of (user_ingredients : list string) : gset string :=
  list_to_set
    (map PyStr.lower
       (map PyStr.strip
          (List.filter (fun i => PyStr.truthy (PyStr.strip i))
             user_ingredients))).

(** The body of the loop over the catalog. *)
Definition score_recipe (user_set : gset string) (r : Recipe)
    (scored : list Suggestion) : M (list Suggestion) :=
  let r_set : gset string := list_to_set (map PyStr.lower (r_ingredients r)) in
  let overlap := size (user_set ∩ r_set) in
  let* score := truediv (Z.of_nat overlap) (Z.of_nat (Nat.max 1 (size r_set))) in
  ret (scored ++ [mkSuggestion (r_name r) score (r_ingredients r)
                    (r_instructions r)]).

Definition suggest_recipes (user_ingredients : list string) (top_k : Z)
  : M (list Suggestion) :=
  let user_set := user_set_of user_ingredients in
  let* rs := read_recipes in
  let* scored := for_each rs (score_recipe user_set) [] in
  let scored := sort_desc score scored in
  ret (slice_to scored top_k).

(** ** The caller: [MealMakerShell.on_search] and [SearchWorker.run] *)

(** [raw = ingredient_string.lower().replace(",", " ")] and
    [[i.strip() for i in raw.split() if i.strip()]]. *)
Definition on_search_ingredients (ingredient_string : string) : list string :=
  let raw := PyStr.replace_comma (PyStr.lower ingredient_string) in
  map PyStr.strip
    (List.filter (fun i => PyStr.truthy (PyStr.strip i)) (PyStr.split raw)).

(** [SearchWorker(ingredients).run()] calls the engine with [top_k=3]. *)
Definition on_search (ingredient_string : string) : M (list Suggestion) :=
  suggest_recipes (on_search_ingredients ingredient_string) 3.

(** ** Notions used in the statements *)

(** The value of [overlap / max(1, len(r_set))] for one recipe. *)
Definition score_value (user_set : gset string) (r : Recipe) : Q :=
  let r_set : gset string := list_to_set (map PyStr.lower (r_ingredients r)) in
  Qred (Z.of_nat (size (user_set ∩ r_set))
        # Z.to_pos (Z.of_nat (Nat.max 1 (size r_set)))).

(** The dict appended for one recipe. *)
Definition suggestion_of (user_set : gset string) (r : Recipe) : Suggestion :=
  mkSuggestion (r_name r) (score_value user_set r) (r_ingredients r)
    (r_instructions r).

(** Ranking order of the sort: [a] stands before [b] when its key is
    larger, or equal with [a] earlier in the list given to the sort; [pos] is
    the place an element had there. *)
Definition ranks_before {A} (key : A -> Q) (pos : A -> nat) (a b : A) : Prop :=
  (key b < key a)%Q \/ ((key a == key b)%Q /\ pos a < pos b).

(** Each recipe paired with its position in the catalog, counted from [n]. *)
Fixpoint enumerate_from {A} (n : nat) (l : list A) : list (nat * A) :=
  match l with
  | [] => []
  | x :: l' => (n, x) :: enumerate_from (S n) l'
  end.

(** The key under which a catalog position is ranked. *)
Definition rank_key (user_set : gset string) (p : nat * Recipe) : Q :=
  score_value user_set (snd p).

(** The dict of a recipe that matches nothing. *)
Definition unmatched (r : Recipe) : Suggestion :=
  mkSuggestion (r_name r) 0 (r_ingredients r) (r_instructions r).

(** A text made of whitespace and commas only, the empty text included. *)
Fixpoint blank (s : string) : bool :=
  match s with
  | EmptyString => true
  | String c s' =>
      (PyStr.isspace c || Ascii.eqb c ","%char) && blank s'
  end.

(** Normalization in the words of the design document: trim, lower-case,
    drop the empty names, keep each name once. *)
Definition normalized_names (names : list string) : list string :=
  remove_dups
    (map (fun i => PyStr.lower (PyStr.strip i))
       (List.filter (fun i => PyStr.truthy (PyStr.strip i)) names)).

(** The overlap-fraction score in the words of the design document, with
    the user's names and the recipe's names both normalized: how many of the
    recipe's distinct normalized names the user has, over the number of
    those names, with 1 as the least denominator. *)
Definition claimed_fraction (user_ingredients : list string) (r : Recipe)
  : Q :=
  (inject_Z
     (Z.of_nat
        (length (filter (fun x => x ∈ normalized_names user_ingredients)
                   (normalized_names (r_ingredients r)))))
   / inject_Z
       (Z.of_nat (Nat.max 1 (length (normalized_names (r_ingredients r))))))%Q.

(** The distinct names of a recipe when they are lower-cased and nothing
    more: a name keeps its leading and trailing whitespace, and an empty
    name is kept. *)
Definition lowercased_names (r : Recipe) : list string :=
  remove_dups (map PyStr.lower (r_ingredients r)).

(** The same quotient with the recipe's names lower-cased only; the user's
    names are normalized as above. *)
Definition overlap_fraction (user_ingredients : list string) (r : Recipe)
  : Q :=
  (inject_Z
     (Z.of_nat
        (length (filter (fun x => x ∈ normalized_names user_ingredients)
                   (lowercased_names r))))
   / inject_Z (Z.of_nat (Nat.max 1 (length (lowercased_names r)))))%Q.

(** The tokens that survive normalization, in the words of the design
    document: an ingredient that is not blank, trimmed and lower-cased. *)
Definition normalized_token (user_ingredients : list string) (x : string)
  : Prop :=
  exists i, In i user_ingredients
            /\ PyStr.strip i <> EmptyString
            /\ x = PyStr.lower (PyStr.strip i).

(** Two ingredient lists that normalize to the same set of tokens. *)
Definition same_tokens (l1 l2 : list string) : Prop :=
  forall x, normalized_token l1 x <-> normalized_token l2 x.

(** ** The rest of the two files

    Besides the engine: the guard of [HomePage.on_find], [SearchWorker.run],
    [Spinner.advance], and from the first prototype the tokenizer of
    [MealMaker.suggest], [RecipeCard.animate_in] and the loop of
    [MealMaker.show_recipe_results].  Left out: the embedding-based
    [suggest_recipes] of the first prototype (a neural model and floating
    point), the percentage shown on a card ([int(score * 100)], floating
    point), the Vosk worker (audio input) and the Qt widgets, signals and
    threads. *)

(** [all_chars p s]: every character of [s] satisfies [p]. *)
Fixpoint all_chars (p : ascii -> bool) (s : string) : bool :=
  match s with
  | EmptyString => true
  | String c s' => p c && all_chars p s'
  end.

Definition not_space (c : ascii) : bool := negb (PyStr.isspace c).

Definition not_comma (c : ascii) : bool := negb (Ascii.eqb c ","%char).

Definition lower_fixed (c : ascii) : bool := Ascii.eqb (PyStr.lower_char c) c.

(** [sep.join(l)] *)
Fixpoint join (sep : string) (l : list string) : string :=
  match l with
  | [] => EmptyString
  | [x] => x
  | x :: l' => String.append x (String.append sep (join sep l'))
  end.

(** [s.split(",")]: the pieces between the commas, empty ones kept; the
    empty string gives one empty piece. *)
Fixpoint split_comma (s : string) : list string :=
  match s with
  | EmptyString => [EmptyString]
  | String c s' =>
      if Ascii.eqb c ","%char then EmptyString :: split_comma s'
      else match split_comma s' with
           | [] => [String c EmptyString]
           | t :: ts => String c t :: ts
           end
  end.

(** [HomePage.on_find]: the warning dialog, or the signal [start_search]. *)
Inductive find_outcome :=
| Warning (title message : string)
| StartSearch (text : string).

Definition on_find (text : string) : find_outcome :=
  if negb (PyStr.truthy (PyStr.strip text))
  then Warning "Empty" "Please type some ingredients or use the mic."
  else StartSearch text.

(** [SearchWorker.run]: the signal it emits, [finished] with the results or
    [error] with [str(e)]. *)
Inductive worker_signal :=
| Finished (results : list Suggestion)
| Error (message : string).

Definition str_of_exn (e : exn) : string :=
  match e with ZeroDivisionError => "division by zero" end.

Definition SearchWorker_run (ingredients : list string)
  : globals -> worker_signal * globals :=
  fun g =>
    match suggest_recipes ingredients 3 g with
    | (inr results, g') => (Finished results, g')
    | (inl e, g') => (Error (str_of_exn e), g')
    end.

(** [MealMaker.suggest], the list it hands to the engine:
    [[i.strip().lower() for i in ingredients_string.split(",") if i.strip()]]. *)
Definition suggest_ingredients_list (ingredients_string : string)
  : list string :=
  map (fun i => PyStr.lower (PyStr.strip i))
    (List.filter (fun i => PyStr.truthy (PyStr.strip i))
       (split_comma ingredients_string)).

(** [Spinner.advance]: [self.angle = (self.angle + 6) % 360]. *)
Definition advance (angle : Z) : Z := ((angle + 6) mod 360)%Z.

(** [n] timer ticks. *)
Fixpoint advance_n (n : nat) (angle : Z) : Z :=
  match n with
  | O => angle
  | S n' => advance (advance_n n' angle)
  end.

(** [QRect(x, y, w, h)] and the three settings of a card's animation. *)
Record QRect := mkQRect { rx : Z; ry : Z; rw : Z; rh : Z }.

Record Animation := mkAnimation {
  start_value : QRect;
  end_value : QRect;
  duration : Z
}.

(** [RecipeCard.animate_in(delay, y_start, y_end)] *)
Definition animate_in (delay y_start y_end : Z) : Animation :=
  mkAnimation (mkQRect 20 y_start 340 120) (mkQRect 20 y_end 340 120)
    (450 + delay).

(** The loop of [MealMaker.show_recipe_results] over [enumerate(results)]:
    the animation started for each card, with [idx] and [y_offset] as the
    loop-carried locals. *)
Fixpoint animate_cards {A} (results : list A) (idx y_offset : Z)
  : list (A * Animation) :=
  match results with
  | [] => []
  | r :: rest =>
      (r, animate_in (idx * 200) 800 y_offset)
        :: animate_cards rest (idx + 1) (y_offset + 140)
  end.

Definition show_recipe_results {A} (results : list A) : list (A * Animation) :=
  animate_cards results 0 0.

(** A lower-case ingredient name of one word: non-empty, without whitespace
    and without comma. *)
Definition one_word (t : string) : Prop :=
  t <> EmptyString
  /\ all_chars not_space t = true
  /\ all_chars not_comma t = true
  /\ PyStr.lower t = t.

(** * Properties *)

(** ** What the engine computes, in closed form *)

Lemma truediv_pos a b g :
  (0 < b)%Z -> truediv a b g = (inr (Qred (a # Z.to_pos b)), g).
Proof.
  intros Hb. unfold truediv.
  destruct (Z.eqb_spec b 0) as [->|_]; [lia|].
  rewrite Z.sgn_pos, Z.mul_1_r, Z.abs_eq by lia. reflexivity.
Qed.

Lemma score_recipe_run user_set r scored g :
  score_recipe user_set r scored g
  = (inr (scored ++ [suggestion_of user_set r]), g).
Proof.
  unfold score_recipe, bind. rewrite truediv_pos by lia. reflexivity.
Qed.

Lemma for_each_score_run user_set rs : forall scored g,
  for_each rs (score_recipe user_set) scored g
  = (inr (scored ++ map (suggestion_of user_set) rs), g).
Proof.
  induction rs as [|r rs IH]; intros scored g; simpl.
  - unfold ret. now rewrite app_nil_r.
  - unfold bind at 1. rewrite score_recipe_run, IH.
    now rewrite <- app_assoc.
Qed.

(** The whole call: it returns, leaves the store as it found it, and its
    value is the slice of the sorted list of per-recipe dicts. *)
Lemma suggest_recipes_run user_ingredients top_k g :
  suggest_recipes user_ingredients top_k g
  = (inr (slice_to
            (sort_desc score
               (map (suggestion_of (user_set_of user_ingredients))
                  (g_recipes g)))
            top_k), g).
Proof.
  unfold suggest_recipes, bind, read_recipes.
  rewrite for_each_score_run. reflexivity.
Qed.

(** ** The stable descending sort *)

Section SortDesc.
Context {A : Type} (key : A -> Q).

Lemma insert_desc_perm x l : Permutation (x :: l) (insert_desc key x l).
Proof.
  induction l as [|y l IH]; simpl; [reflexivity|].
  destruct (Qle_bool (key y) (key x)); [reflexivity|].
  rewrite perm_swap. now apply perm_skip.
Qed.

Lemma sort_desc_perm l : Permutation l (sort_desc key l).
Proof.
  induction l as [|x l IH]; simpl; [reflexivity|].
  rewrite <- insert_desc_perm. now apply perm_skip.
Qed.

Lemma sort_desc_length l : length (sort_desc key l) = length l.
Proof. symmetry. apply Permutation_length, sort_desc_perm. Qed.

Lemma Forall_insert_desc (P : A -> Prop) x l :
  P x -> Forall P l -> Forall P (insert_desc key x l).
Proof.
  intros Hx Hl.
  eapply Permutation_Forall; [apply insert_desc_perm|].
  now constructor.
Qed.

Lemma Forall_sort_desc (P : A -> Prop) l :
  Forall P l -> Forall P (sort_desc key l).
Proof. apply Permutation_Forall, sort_desc_perm. Qed.

(** Elements that all carry the same key are left where they are. *)
Lemma sort_desc_same_key c l :
  Forall (fun a => key a == c)%Q l -> sort_desc key l = l.
Proof.
  induction 1 as [|x l Hx Hl IH]; simpl; [reflexivity|].
  rewrite IH. destruct Hl as [|y l Hy Hl]; simpl; [reflexivity|].
  replace (Qle_bool (key y) (key x)) with true; [reflexivity|].
  symmetry. apply Qle_bool_iff. rewrite Hx, Hy. apply Qle_refl.
Qed.

Context (pos : A -> nat).

Lemma ranks_before_key a b : ranks_before key pos a b -> (key b <= key a)%Q.
Proof.
  intros [H|[H _]]; [now apply Qlt_le_weak|].
  rewrite H. apply Qle_refl.
Qed.

Lemma insert_desc_ranked x l :
  StronglySorted (ranks_before key pos) l ->
  Forall (fun y => pos x < pos y) l ->
  StronglySorted (ranks_before key pos) (insert_desc key x l).
Proof.
  induction 1 as [|y l Hl IH Hy]; intros Hpos; simpl.
  - repeat constructor.
  - inversion Hpos as [|? ? Hxy Hxl]; subst.
    destruct (Qle_bool (key y) (key x)) eqn:E.
    + apply Qle_bool_iff in E.
      assert (Hfirst : forall z, (key z <= key x)%Q -> pos x < pos z ->
                                 ranks_before key pos x z).
      { intros z Hz Hp. destruct (Qlt_le_dec (key z) (key x)) as [Hlt|Hge].
        - now left.
        - right. split; [now apply Qle_antisym|exact Hp]. }
      constructor; [now constructor|].
      constructor; [now apply Hfirst|].
      rewrite Forall_forall in Hy, Hxl |- *. intros z Hz.
      apply Hfirst; [|now apply Hxl].
      eapply Qle_trans; [apply ranks_before_key, Hy, Hz|exact E].
    + constructor; [now apply IH|].
      apply Forall_insert_desc; [|exact Hy].
      left. apply Qnot_le_lt. intros Hle.
      apply Qle_bool_iff in Hle. congruence.
Qed.

(** Stability: a list given in increasing [pos] comes out with larger
    keys first and, among equal keys, in increasing [pos]. *)
Lemma sort_desc_ranked l :
  StronglySorted (fun a b => pos a < pos b) l ->
  StronglySorted (ranks_before key pos) (sort_desc key l).
Proof.
  induction 1 as [|x l Hl IH Hx]; simpl; [constructor|].
  apply insert_desc_ranked; [exact IH|].
  now apply Forall_sort_desc.
Qed.

End SortDesc.

Lemma insert_desc_map {A B} (f : A -> B) (key : B -> Q) x l :
  insert_desc key (f x) (map f l)
  = map f (insert_desc (fun a => key (f a)) x l).
Proof.
  induction l as [|y l IH]; simpl; [reflexivity|].
  destruct (Qle_bool (key (f y)) (key (f x))); simpl; [reflexivity|].
  now rewrite IH.
Qed.

Lemma sort_desc_map {A B} (f : A -> B) (key : B -> Q) l :
  sort_desc key (map f l) = map f (sort_desc (fun a => key (f a)) l).
Proof.
  induction l as [|x l IH]; simpl; [reflexivity|].
  now rewrite IH, insert_desc_map.
Qed.

(** ** Slices *)

Lemma slice_to_map {A B} (f : A -> B) l k :
  slice_to (map f l) k = map f (slice_to l k).
Proof.
  unfold slice_to. rewrite length_map.
  destruct (k <? 0)%Z; apply firstn_map.
Qed.

Lemma slice_to_take {A} (l : list A) k :
  exists n, slice_to l k = take n l.
Proof. unfold slice_to. destruct (k <? 0)%Z; eauto. Qed.

Lemma StronglySorted_take {A} (R : A -> A -> Prop) n l :
  StronglySorted R l -> StronglySorted R (take n l).
Proof.
  intros H. revert n. induction H as [|x l Hl IH Hx]; intros [|n]; simpl;
    try constructor; [apply IH|].
  rewrite List.Forall_forall in Hx |- *. intros y Hy. apply Hx.
  rewrite <- (firstn_skipn n l). apply in_or_app. now left.
Qed.

Lemma Forall_take' {A} (P : A -> Prop) n l :
  Forall P l -> Forall P (take n l).
Proof.
  intros H. revert n. induction H; intros [|n]; simpl; constructor; auto.
Qed.

Lemma StronglySorted_lookup {A} (R : A -> A -> Prop) (l : list A) :
  StronglySorted R l ->
  forall a b x y, a < b -> l !! a = Some x -> l !! b = Some y -> R x y.
Proof.
  induction 1 as [|z l Hl IH Hz]; intros a b x y Hab Ha Hb.
  - discriminate.
  - destruct b as [|b]; [lia|]. destruct a as [|a]; simpl in *.
    + injection Ha as <-. rewrite Forall_forall in Hz.
      apply Hz. eapply list_elem_of_lookup_2, Hb.
    + eapply IH; [|exact Ha|exact Hb]. lia.
Qed.

Lemma map_lookup {A B} (f : A -> B) (l : list A) i :
  map f l !! i = f <$> (l !! i).
Proof. change (map f l) with (f <$> l). apply list_lookup_fmap. Qed.

(** ** Catalog positions *)

Lemma enumerate_from_snd {A} (l : list A) : forall n,
  map snd (enumerate_from n l) = l.
Proof. induction l as [|x l IH]; intros n; simpl; [|rewrite IH]; reflexivity. Qed.

Lemma enumerate_from_lookup {A} (l : list A) : forall n,
  Forall (fun p => n <= fst p /\ l !! (fst p - n) = Some (snd p))
    (enumerate_from n l).
Proof.
  induction l as [|x l IH]; intros n; simpl; constructor.
  - simpl. rewrite Nat.sub_diag. split; [lia|reflexivity].
  - eapply Forall_impl; [apply IH|]. intros [i y] [Hle Hy]; simpl in *.
    split; [lia|]. replace (i - n) with (S (i - S n)) by lia. exact Hy.
Qed.

Lemma enumerate_from_increasing {A} (l : list A) : forall n,
  StronglySorted (fun p q : nat * A => fst p < fst q) (enumerate_from n l).
Proof.
  induction l as [|x l IH]; intros n; simpl; constructor; [apply IH|].
  eapply Forall_impl; [apply enumerate_from_lookup|].
  intros [i y] [Hle _]; simpl in *. lia.
Qed.

(** Every call returns the dicts of a list of catalog positions that is
    ranked: larger score first, equal scores in catalog order. *)
Lemma suggest_recipes_ranked user_ingredients top_k g :
  let user_set := user_set_of user_ingredients in
  exists ps : list (nat * Recipe),
    suggest_recipes user_ingredients top_k g
    = (inr (map (fun p => suggestion_of user_set (snd p)) ps), g)
    /\ Forall (fun p => g_recipes g !! fst p = Some (snd p)) ps
    /\ StronglySorted (ranks_before (rank_key user_set) fst) ps.
Proof.
  intros user_set.
  set (full := sort_desc (rank_key user_set) (enumerate_from 0 (g_recipes g))).
  exists (slice_to full top_k). split; [|split].
  - rewrite suggest_recipes_run. fold user_set. f_equal. f_equal.
    rewrite <- slice_to_map. f_equal. unfold full.
    rewrite <- (enumerate_from_snd (g_recipes g) 0) at 1.
    rewrite map_map, sort_desc_map. reflexivity.
  - destruct (slice_to_take full top_k) as [n ->].
    apply Forall_take', Forall_sort_desc.
    eapply Forall_impl; [apply enumerate_from_lookup|].
    intros [i r] [_ H]; simpl in *. now rewrite Nat.sub_0_r in H.
  - destruct (slice_to_take full top_k) as [n ->].
    apply StronglySorted_take, sort_desc_ranked, enumerate_from_increasing.
Qed.

Lemma ranks_before_irrefl {A} (key : A -> Q) (pos : A -> nat) a :
  ~ ranks_before key pos a a.
Proof.
  intros [H|[_ H]]; [exact (Qlt_irrefl _ H)|lia].
Qed.

(** Positions of a ranked list of catalog entries do not repeat. *)
Lemma ranked_positions_NoDup {A} (rs : list A) (key : nat * A -> Q)
    (ps : list (nat * A)) :
  Forall (fun p => rs !! fst p = Some (snd p)) ps ->
  StronglySorted (ranks_before key fst) ps ->
  NoDup (map fst ps).
Proof.
  intros Hps Hsorted.
  induction Hsorted as [|p ps Hs IH Hp]; simpl; constructor.
  - intros Hin. apply list_elem_of_In, in_map_iff in Hin.
    destruct Hin as (q & Hq & Hin).
    inversion Hps as [|? ? Hp1 Hps1]; subst.
    rewrite List.Forall_forall in Hp, Hps1.
    pose proof (Hps1 q Hin) as Hq1. rewrite Hq, Hp1 in Hq1.
    assert (q = p) as -> by (destruct p, q; simpl in *; congruence).
    exact (ranks_before_irrefl _ _ _ (Hp p Hin)).
  - apply IH. now inversion Hps.
Qed.

(** ** Ranking *)

(** C2. For every query and every [top_k], [suggest_recipes] returns a list
    in which a result never has a larger score than one before it, and in
    which two results of equal score stand in the order of their recipes in
    the catalog: with [idx] the catalog positions of the results, an earlier
    result has a score at least that of a later one, and on a tie the smaller
    catalog position. *)
Theorem C2_sorted_desc_stable (user_ingredients : list string) (top_k : Z)
    (g : globals) :
  exists (res : list Suggestion) (idx : list nat),
    suggest_recipes user_ingredients top_k g = (inr res, g)
    /\ Forall2 (fun i s => exists r, g_recipes g !! i = Some r
                  /\ s = suggestion_of (user_set_of user_ingredients) r)
         idx res
    /\ forall a b i j s t,
         a < b ->
         idx !! a = Some i -> idx !! b = Some j ->
         res !! a = Some s -> res !! b = Some t ->
         (score t <= score s)%Q /\ ((score s == score t)%Q -> i < j).
Proof.
  destruct (suggest_recipes_ranked user_ingredients top_k g)
    as (ps & Hrun & Hps & Hsorted).
  set (us := user_set_of user_ingredients) in *.
  exists (map (fun p => suggestion_of us (snd p)) ps), (map fst ps).
  split; [exact Hrun|]. split.
  - clear Hrun Hsorted. induction Hps as [|p ps Hp _ IH]; simpl; constructor.
    + exists (snd p). now split.
    + exact IH.
  - intros a b i j s t Hab Hi Hj Hs Ht.
    rewrite map_lookup in Hi, Hj.
    rewrite (map_lookup (fun p => suggestion_of us (snd p))) in Hs, Ht.
    destruct (ps !! a) as [p|] eqn:Ea; [|discriminate].
    destruct (ps !! b) as [q|] eqn:Eb; [|discriminate].
    simpl in *. injection Hi as <-. injection Hj as <-.
    injection Hs as <-. injection Ht as <-.
    pose proof (StronglySorted_lookup _ _ Hsorted a b p q Hab Ea Eb) as HR.
    split.
    + apply (ranks_before_key _ _ _ _ HR).
    + intros Heq. destruct HR as [Hlt|[_ Hpos]]; [|exact Hpos].
      exfalso. unfold rank_key in Hlt. simpl in Heq.
      rewrite Heq in Hlt. exact (Qlt_irrefl _ Hlt).
Qed.

(** C10. Every element of the list that [suggest_recipes] returns is the
    dict of one catalog position: its name, ingredients and instructions are
    those of the recipe at that position, and no catalog position is used
    for two elements of the same result. *)
Theorem C10_results_are_distinct_catalog_entries
    (user_ingredients : list string) (top_k : Z) (g : globals) :
  exists (res : list Suggestion) (idx : list nat),
    suggest_recipes user_ingredients top_k g = (inr res, g)
    /\ NoDup idx
    /\ Forall2 (fun i s => exists r, g_recipes g !! i = Some r
                  /\ name s = r_name r
                  /\ ingredients s = r_ingredients r
                  /\ instructions s = r_instructions r)
         idx res.
Proof.
  destruct (suggest_recipes_ranked user_ingredients top_k g)
    as (ps & Hrun & Hps & Hsorted).
  set (us := user_set_of user_ingredients) in *.
  exists (map (fun p => suggestion_of us (snd p)) ps), (map fst ps).
  split; [exact Hrun|]. split.
  - apply ranked_positions_NoDup with (rs := g_recipes g) (key := rank_key us);
      assumption.
  - clear Hrun Hsorted. induction Hps as [|p ps Hp _ IH]; simpl; constructor.
    + exists (snd p). simpl. auto.
    + exact IH.
Qed.

(** ** Length of the result *)

Lemma slice_to_length_pos {A} (l : list A) (k : Z) :
  (0 < k)%Z ->
  Z.of_nat (length (slice_to l k)) = Z.min k (Z.of_nat (length l)).
Proof.
  intros Hk. unfold slice_to.
  destruct (Z.ltb_spec k 0) as [?|_]; [lia|].
  rewrite length_take. lia.
Qed.

(** C3. For every non-empty catalog, every query (also one whose
    ingredients normalize to the empty set) and every positive [top_k],
    [suggest_recipes] returns a list of exactly [min(top_k, len(recipes))]
    elements. *)
Theorem C3_result_length (user_ingredients : list string) (top_k : Z)
    (g : globals) :
  g_recipes g <> [] ->
  (0 < top_k)%Z ->
  exists res,
    suggest_recipes user_ingredients top_k g = (inr res, g)
    /\ Z.of_nat (length res)
       = Z.min top_k (Z.of_nat (length (g_recipes g))).
Proof.
  intros _ Hk. eexists. split; [apply suggest_recipes_run|].
  rewrite slice_to_length_pos by exact Hk.
  now rewrite sort_desc_length, length_map.
Qed.

Lemma C3_result_length_witness :
  exists res,
    suggest_recipes [] 3 module_globals = (inr res, module_globals)
    /\ Z.of_nat (length res)
       = Z.min 3 (Z.of_nat (length (g_recipes module_globals))).
Proof.
  apply (C3_result_length [] 3 module_globals); [discriminate|lia].
Defined.

(** ** Frame and determinism *)

(** C8. A call of [suggest_recipes] returns a list and leaves the store as
    it found it, so the catalog and the name, ingredients, instructions and
    tags of each of its recipes are what they were; the same call made
    again, on the store the first call left, returns the same list and
    again leaves the store unchanged. *)
Theorem C8_no_mutation_and_deterministic (user_ingredients : list string)
    (top_k : Z) (g : globals) :
  let first := suggest_recipes user_ingredients top_k g in
  let second := suggest_recipes user_ingredients top_k (snd first) in
  snd first = g
  /\ g_recipes (snd first) = g_recipes g
  /\ (exists res, fst first = inr res)
  /\ fst second = fst first
  /\ snd second = g.
Proof.
  cbv zeta. rewrite (suggest_recipes_run user_ingredients top_k g).
  cbn [fst snd]. rewrite suggest_recipes_run. cbn [fst snd].
  repeat split; eauto.
Qed.

(** ** Errors *)

(** C7, as the code has it.  The program has no matcher object to construct
    and no [InvalidCatalog] error: the catalog is the module-level list
    [recipes], which holds ten recipes.  [suggest_recipes] raises no
    exception over any catalog, and over an empty catalog it returns the
    empty list. *)
Theorem C7_no_error_on_any_catalog :
  length recipes = 10
  /\ (forall user_ingredients top_k g,
        exists res, suggest_recipes user_ingredients top_k g = (inr res, g))
  /\ (forall user_ingredients top_k,
        suggest_recipes user_ingredients top_k (mkGlobals [])
        = (inr [], mkGlobals [])).
Proof.
  split; [reflexivity|]. split.
  - intros ui k g. eexists. apply suggest_recipes_run.
  - intros ui k. rewrite suggest_recipes_run. simpl.
    unfold slice_to. simpl. destruct (k <? 0)%Z; now rewrite take_nil.
Qed.

(** C7 as stated fails: over an empty catalog a query is answered, with
    the empty list, and no error of any kind is raised. *)
Lemma C7_counterexample :
  suggest_recipes ["eggs"] 3 (mkGlobals []) = (inr [], mkGlobals [])
  /\ forall e : exn, fst (suggest_recipes ["eggs"] 3 (mkGlobals [])) <> inl e.
Proof. split; [reflexivity|]. intros e. discriminate. Qed.

(** ** Non-positive [top_k] *)

(** C5, as the code has it.  A non-positive [top_k] is not clamped to 1: it
    is the bound of the slice [scored[:top_k]].  With [ranking] the full
    sorted list (what the call returns for [top_k = len(recipes)]), the call
    returns the empty list for [top_k = 0] and [ranking] without its last
    [-top_k] elements for a negative [top_k] (the empty list once [-top_k]
    reaches the catalog size); no exception is raised. *)
Theorem C5_nonpositive_top_k_slices (user_ingredients : list string)
    (top_k : Z) (g : globals) :
  (top_k <= 0)%Z ->
  exists ranking,
    suggest_recipes user_ingredients (Z.of_nat (length (g_recipes g))) g
    = (inr ranking, g)
    /\ length ranking = length (g_recipes g)
    /\ suggest_recipes user_ingredients top_k g
       = (inr (if (top_k =? 0)%Z then []
               else take (length ranking - Z.to_nat (- top_k)) ranking), g).
Proof.
  intros Hk. rewrite !suggest_recipes_run.
  set (sorted := sort_desc score _).
  assert (Hlen : length sorted = length (g_recipes g)).
  { unfold sorted. now rewrite sort_desc_length, length_map. }
  exists sorted. split; [|split; [exact Hlen|]].
  - f_equal. f_equal. unfold slice_to.
    destruct (Z.ltb_spec (Z.of_nat (length (g_recipes g))) 0) as [?|_]; [lia|].
    rewrite Nat2Z.id, <- Hlen. apply firstn_all.
  - f_equal. f_equal. unfold slice_to.
    destruct (Z.eqb_spec top_k 0) as [->|Hne]; [reflexivity|].
    destruct (Z.ltb_spec top_k 0) as [_|?]; [|lia].
    f_equal. lia.
Qed.

Lemma C5_nonpositive_top_k_slices_witness :
  exists ranking,
    suggest_recipes ["rice"; "chicken"; "onion"] 10 module_globals
    = (inr ranking, module_globals)
    /\ length ranking = 10
    /\ suggest_recipes ["rice"; "chicken"; "onion"] (-8) module_globals
       = (inr (take (length ranking - 8) ranking), module_globals).
Proof.
  apply (C5_nonpositive_top_k_slices ["rice"; "chicken"; "onion"] (-8)
           module_globals).
  lia.
Defined.

(** C5 as stated fails: with [top_k = 0] the call returns no result, with
    [top_k = -8] it returns two, and with [top_k = 1] it returns one. *)
Lemma C5_counterexample :
  fst (suggest_recipes ["rice"; "chicken"; "onion"] 0 module_globals) = inr []
  /\ (exists s t,
        fst (suggest_recipes ["rice"; "chicken"; "onion"] (-8) module_globals)
        = inr [s; t])
  /\ (exists s,
        fst (suggest_recipes ["rice"; "chicken"; "onion"] 1 module_globals)
        = inr [s]).
Proof.
  split; [vm_compute; reflexivity|].
  split; repeat eexists; vm_compute; reflexivity.
Qed.

(** ** A query with no ingredient *)

Lemma score_value_empty r : score_value ∅ r = 0%Q.
Proof.
  unfold score_value. rewrite intersection_empty_l_L, size_empty.
  reflexivity.
Qed.

Lemma blank_char_becomes_space c :
  implb (PyStr.isspace c || Ascii.eqb c ","%char)
    (PyStr.isspace
       (if Ascii.eqb (PyStr.lower_char c) ","%char then " "%char
        else PyStr.lower_char c))
  = true.
Proof. destruct c as [[] [] [] [] [] [] [] []]; vm_compute; reflexivity. Qed.

Lemma split_blank text :
  blank text = true ->
  PyStr.split (PyStr.replace_comma (PyStr.lower text)) = [].
Proof.
  unfold PyStr.split. induction text as [|c s IH]; simpl; [reflexivity|].
  intros H. apply andb_true_iff in H as [Hc Hs].
  pose proof (blank_char_becomes_space c) as Himp.
  rewrite Hc in Himp. simpl in Himp. rewrite Himp. simpl. now apply IH.
Qed.

(** [on_search] hands a blank text to the engine as the empty list, whose
    normalized set is empty. *)
Lemma blank_text_has_no_token text :
  blank text = true ->
  on_search_ingredients text = []
  /\ user_set_of (on_search_ingredients text) = ∅.
Proof.
  intros H. unfold on_search_ingredients.
  rewrite (split_blank text H). split; reflexivity.
Qed.

(** C4, as the code has it.  When the ingredients normalize to the empty
    set, [suggest_recipes] raises no exception, gives every recipe the score
    0 and, the sort being stable, returns the slice [[:top_k]] of the catalog
    in catalog order: the first [min(top_k, len(recipes))] recipes for a
    positive [top_k].  The result is empty only when that slice is.  A text
    that is empty or made of whitespace is such a query
    ([blank_text_has_no_token]). *)
Theorem C4_empty_query_returns_catalog_slice (user_ingredients : list string)
    (top_k : Z) (g : globals) :
  user_set_of user_ingredients = ∅ ->
  suggest_recipes user_ingredients top_k g
  = (inr (slice_to (map unmatched (g_recipes g)) top_k), g).
Proof.
  intros Hempty. rewrite suggest_recipes_run, Hempty.
  assert (Hmap : map (suggestion_of ∅) (g_recipes g)
                 = map unmatched (g_recipes g)).
  { apply map_ext. intros r. unfold suggestion_of, unmatched.
    now rewrite score_value_empty. }
  rewrite Hmap, (sort_desc_same_key score 0%Q); [reflexivity|].
  apply List.Forall_forall. intros s Hs. apply in_map_iff in Hs.
  destruct Hs as (r & <- & _). reflexivity.
Qed.

Lemma C4_empty_query_returns_catalog_slice_witness :
  suggest_recipes (on_search_ingredients "   ") 3 module_globals
  = (inr (slice_to (map unmatched (g_recipes module_globals)) 3),
     module_globals).
Proof.
  apply (C4_empty_query_returns_catalog_slice (on_search_ingredients "   ") 3
           module_globals).
  vm_compute. reflexivity.
Defined.

(** C4 as stated fails: the whitespace-only text ["   "] normalizes to the
    empty set, and the search over the module's catalog returns three
    results, the first three recipes, not the empty list. *)
Lemma C4_counterexample :
  user_set_of (on_search_ingredients "   ") = ∅
  /\ (exists s1 s2 s3,
        on_search "   " module_globals = (inr [s1; s2; s3], module_globals)
        /\ name s1 = "Vegetable Omelette"
        /\ name s2 = "Pasta with Tomato Sauce"
        /\ name s3 = "Mexican Chicken Tacos")
  /\ fst (suggest_recipes [] 3 module_globals) <> inr [].
Proof.
  split; [vm_compute; reflexivity|]. split.
  - do 3 eexists. split; [vm_compute; reflexivity|].
    repeat split; reflexivity.
  - vm_compute. discriminate.
Qed.

(** ** The score of one recipe *)

Section SetCounting.
Implicit Types (l : list string) (X : gset string).

Lemma size_list_to_set_distinct l :
  size (list_to_set l : gset string) = length (remove_dups l).
Proof.
  rewrite <- (size_list_to_set (C := gset string) (remove_dups l))
    by apply NoDup_remove_dups.
  f_equal. apply set_eq. intros x.
  now rewrite !elem_of_list_to_set, elem_of_remove_dups.
Qed.

Lemma size_intersection_list_to_set X l :
  size (X ∩ list_to_set l)
  = length (filter (fun x => x ∈ X) (remove_dups l)).
Proof.
  rewrite <- (size_list_to_set (C := gset string)
                (filter (fun x => x ∈ X) (remove_dups l)))
    by apply NoDup_filter, NoDup_remove_dups.
  f_equal. apply set_eq. intros x.
  rewrite elem_of_intersection, !elem_of_list_to_set, list_elem_of_filter,
    elem_of_remove_dups.
  reflexivity.
Qed.

Lemma size_intersection_le X Y : size (X ∩ Y) <= size Y.
Proof. apply subseteq_size, intersection_subseteq_r. Qed.

End SetCounting.

(** The engine's set holds the user's names as the design document
    normalizes them. *)
Lemma elem_of_normalized_names user_ingredients x :
  x ∈ normalized_names user_ingredients <-> x ∈ user_set_of user_ingredients.
Proof.
  unfold normalized_names, user_set_of.
  now rewrite elem_of_remove_dups, elem_of_list_to_set, map_map.
Qed.

Lemma score_value_overlap_fraction user_ingredients r :
  (score_value (user_set_of user_ingredients) r
   == overlap_fraction user_ingredients r)%Q.
Proof.
  unfold score_value, overlap_fraction, lowercased_names.
  rewrite Qred_correct, size_intersection_list_to_set,
    size_list_to_set_distinct.
  rewrite (list_filter_iff (fun x => x ∈ user_set_of user_ingredients)
             (fun x => x ∈ normalized_names user_ingredients))
    by (intros x; symmetry; apply elem_of_normalized_names).
  set (n := Z.of_nat (length (filter _ _))).
  set (d := Nat.max 1 _).
  assert (Hd : (0 < Z.of_nat d)%Z) by lia.
  destruct (Z.of_nat d) as [|p|p]; try lia.
  change (Z.to_pos (Z.pos p)) with p. rewrite Qmake_Qdiv. reflexivity.
Qed.

(** The list [scored] that the loop builds has one dict per catalog
    recipe, in catalog order. *)
Lemma scored_lookup user_set (rs : list Recipe) i r :
  rs !! i = Some r ->
  map (suggestion_of user_set) rs !! i = Some (suggestion_of user_set r).
Proof. intros H. now rewrite map_lookup, H. Qed.

Lemma slice_to_length_eq {A B} (l1 : list A) (l2 : list B) k :
  length l1 = length l2 ->
  length (slice_to l1 k) = length (slice_to l2 k).
Proof.
  intros H. unfold slice_to. rewrite H.
  destruct (k <? 0)%Z; rewrite !length_take; lia.
Qed.

(** C1, as the code has it.  For every query whose normalized ingredient
    set is not empty, [suggest_recipes] gives each catalog recipe a dict
    whose score is the number of the recipe's distinct lower-cased names
    that are in the user's normalized set (trimmed, lower-cased, non-empty
    names), divided by the number of those distinct lower-cased names, or by
    1 if there are none.  A name listed twice in a recipe counts once; the
    recipe's names are lower-cased and not trimmed.  The list the call
    returns holds dicts of distinct catalog positions, each with that score,
    as many as the slice [[:top_k]] of the catalog has. *)
Theorem C1_score_is_overlap_fraction (user_ingredients : list string)
    (top_k : Z) (g : globals) :
  normalized_names user_ingredients <> [] ->
  exists (scored res : list Suggestion) (idx : list nat),
    for_each (g_recipes g) (score_recipe (user_set_of user_ingredients)) [] g
    = (inr scored, g)
    /\ Forall2 (fun r s => name s = r_name r
                  /\ (score s == overlap_fraction user_ingredients r)%Q)
         (g_recipes g) scored
    /\ suggest_recipes user_ingredients top_k g = (inr res, g)
    /\ Forall2 (fun i s => scored !! i = Some s) idx res
    /\ NoDup idx
    /\ length res = length (slice_to (g_recipes g) top_k).
Proof.
  intros _. set (user_set := user_set_of user_ingredients).
  destruct (suggest_recipes_ranked user_ingredients top_k g)
    as (ps & Hrun & Hps & Hsorted). fold user_set in Hrun, Hsorted.
  exists (map (suggestion_of user_set) (g_recipes g)),
    (map (fun p => suggestion_of user_set (snd p)) ps), (map fst ps).
  split; [apply for_each_score_run|].
  split; [|split; [exact Hrun|split; [|split]]].
  - clear Hrun Hps Hsorted.
    induction (g_recipes g) as [|r rs IH]; simpl; [constructor|].
    constructor; [|exact IH].
    split; [reflexivity|]. apply score_value_overlap_fraction.
  - clear Hrun Hsorted.
    induction Hps as [|p ps Hp _ IH]; simpl; [constructor|].
    constructor; [|exact IH].
    now apply scored_lookup.
  - apply ranked_positions_NoDup
      with (rs := g_recipes g) (key := rank_key user_set); assumption.
  - rewrite suggest_recipes_run in Hrun. fold user_set in Hrun.
    injection Hrun as Hrun. rewrite <- Hrun.
    apply slice_to_length_eq. now rewrite sort_desc_length, length_map.
Qed.

Lemma C1_score_is_overlap_fraction_witness :
  let g := mkGlobals [mkRecipe "Omelette" ["eggs"; "onion"; "tomato"; "Eggs"]
                        "Whisk eggs." []] in
  exists (scored res : list Suggestion) (idx : list nat),
    for_each (g_recipes g) (score_recipe (user_set_of ["Eggs"; " ONION "]))
      [] g
    = (inr scored, g)
    /\ Forall2 (fun r s => name s = r_name r
                  /\ (score s == overlap_fraction ["Eggs"; " ONION "] r)%Q)
         (g_recipes g) scored
    /\ suggest_recipes ["Eggs"; " ONION "] 1 g = (inr res, g)
    /\ Forall2 (fun i s => scored !! i = Some s) idx res
    /\ NoDup idx
    /\ length res = length (slice_to (g_recipes g) 1).
Proof.
  intros g.
  apply (C1_score_is_overlap_fraction ["Eggs"; " ONION "] 1 g).
  vm_compute. discriminate.
Defined.

(** C1 as stated fails on a catalog name with whitespace around it: the
    recipe's only ingredient ["salt "] normalizes to ["salt"], which the
    user has, so the fraction over normalized names is 1; the engine
    lower-cases the catalog name without trimming it and gives the score
    0. *)
Lemma C1_counterexample :
  let r := mkRecipe "Salted Water" ["salt "] "Boil." [] in
  let g := mkGlobals [r] in
  normalized_names ["salt"] = ["salt"]
  /\ normalized_names (r_ingredients r) = ["salt"]
  /\ (claimed_fraction ["salt"] r == 1)%Q
  /\ exists s,
       suggest_recipes ["salt"] 1 g = (inr [s], g)
       /\ name s = "Salted Water"
       /\ score s = 0%Q
       /\ ~ (score s == claimed_fraction ["salt"] r)%Q.
Proof.
  split; [vm_compute; reflexivity|]. split; [vm_compute; reflexivity|].
  split; [vm_compute; reflexivity|].
  eexists. split; [vm_compute; reflexivity|].
  split; [reflexivity|]. split; [reflexivity|].
  vm_compute. discriminate.
Qed.

Example scenario_omelette :
  fst (suggest_recipes ["Eggs"; " ONION "] 1
         (mkGlobals [mkRecipe "Omelette" ["eggs"; "onion"; "tomato"]
                       "Whisk eggs." []]))
  = inr [mkSuggestion "Omelette" (2 # 3) ["eggs"; "onion"; "tomato"]
           "Whisk eggs."].
Proof. vm_compute. reflexivity. Qed.

(** ** Bounds of the score *)

Lemma score_value_bounds user_set r :
  (0 <= score_value user_set r <= 1)%Q.
Proof.
  unfold score_value. rewrite Qred_correct.
  pose proof (size_intersection_le user_set
                (list_to_set (map PyStr.lower (r_ingredients r)))) as Hle.
  unfold Qle; simpl. rewrite Z2Pos.id by lia. lia.
Qed.

Lemma score_value_full user_set r :
  r_ingredients r <> [] ->
  Forall (fun x => x ∈ user_set) (lowercased_names r) ->
  score_value user_set r = 1%Q.
Proof.
  intros Hne Hall. unfold score_value.
  set (r_set := list_to_set (map PyStr.lower (r_ingredients r)) : gset string).
  assert (Hsub : r_set ⊆ user_set).
  { intros x Hx. rewrite Forall_forall in Hall. apply Hall.
    unfold lowercased_names. rewrite elem_of_remove_dups.
    now apply elem_of_list_to_set in Hx. }
  assert (Hpos : 0 < size r_set).
  { unfold r_set. rewrite size_list_to_set_distinct.
    destruct (r_ingredients r) as [|i rest] eqn:E; [congruence|].
    assert (Hin : PyStr.lower i ∈ remove_dups (map PyStr.lower (i :: rest))).
    { rewrite elem_of_remove_dups. simpl. left. }
    destruct (remove_dups _); [inversion Hin|simpl; lia]. }
  replace (user_set ∩ r_set) with r_set
    by (symmetry; rewrite (comm_L (∩)); now apply subseteq_intersection_1_L).
  rewrite Nat.max_r by lia.
  change 1%Q with (Qred 1). apply Qred_complete.
  unfold Qeq; simpl. rewrite Z2Pos.id by lia. lia.
Qed.

Lemma score_value_no_ingredient user_set r :
  r_ingredients r = [] -> score_value user_set r = 0%Q.
Proof.
  intros E. unfold score_value. rewrite E. simpl.
  rewrite intersection_empty_r_L, size_empty. reflexivity.
Qed.

(** C6, as the code has it.  Every dict that [suggest_recipes] builds or
    returns has a score between 0 and 1, both included.  The score is
    exactly 1 when the recipe lists at least one ingredient and every
    distinct lower-cased name of the recipe (lower-cased and not trimmed) is
    in the user's normalized set (trimmed, lower-cased, non-empty names); a
    recipe that lists no ingredient has the score 0. *)
Theorem C6_score_bounds_and_full_match (user_ingredients : list string)
    (g : globals) :
  (exists scored : list Suggestion,
     for_each (g_recipes g) (score_recipe (user_set_of user_ingredients)) [] g
     = (inr scored, g)
     /\ Forall2 (fun r s =>
           (0 <= score s <= 1)%Q
           /\ (r_ingredients r <> [] ->
               Forall (fun x => x ∈ normalized_names user_ingredients)
                 (lowercased_names r) ->
               score s = 1%Q)
           /\ (r_ingredients r = [] -> score s = 0%Q))
          (g_recipes g) scored)
  /\ (forall top_k, exists res : list Suggestion,
        suggest_recipes user_ingredients top_k g = (inr res, g)
        /\ Forall (fun s => (0 <= score s <= 1)%Q) res).
Proof.
  set (user_set := user_set_of user_ingredients). split.
  - exists (map (suggestion_of user_set) (g_recipes g)).
    split; [apply for_each_score_run|].
    induction (g_recipes g) as [|r rs IH]; simpl; [constructor|].
    constructor; [|exact IH]. simpl. split; [apply score_value_bounds|].
    split; [|apply score_value_no_ingredient].
    intros Hne Hall. apply score_value_full; [exact Hne|].
    eapply List.Forall_impl; [|exact Hall].
    intros x Hx. now apply elem_of_normalized_names.
  - intros top_k. rewrite suggest_recipes_run. fold user_set.
    eexists. split; [reflexivity|].
    destruct (slice_to_take
                (sort_desc score (map (suggestion_of user_set) (g_recipes g)))
                top_k) as [n ->].
    apply Forall_take', Forall_sort_desc, List.Forall_forall.
    intros s Hs. apply in_map_iff in Hs as (r & <- & _).
    apply score_value_bounds.
Qed.

(** C6 as stated fails in two places.  A recipe that lists no ingredient
    has each of its (zero) distinct ingredients in the user's set, and the
    score 0.  A recipe whose only ingredient is ["salt "] has its one
    normalized ingredient, ["salt"], in the user's normalized set, and the
    score 0, the catalog name being lower-cased and not trimmed. *)
Lemma C6_counterexample :
  let r := mkRecipe "Ice Water" [] "Serve cold." [] in
  let g := mkGlobals [r] in
  let r' := mkRecipe "Salted Water" ["salt "] "Boil." [] in
  let g' := mkGlobals [r'] in
  (Forall (fun x => x ∈ normalized_names ["ice"])
     (normalized_names (r_ingredients r))
   /\ exists s,
        suggest_recipes ["ice"] 1 g = (inr [s], g)
        /\ score s = 0%Q
        /\ ~ (score s == 1)%Q)
  /\ (r_ingredients r' <> []
      /\ Forall (fun x => x ∈ normalized_names ["salt"])
           (normalized_names (r_ingredients r'))
      /\ exists s,
           suggest_recipes ["salt"] 1 g' = (inr [s], g')
           /\ score s = 0%Q
           /\ ~ (score s == 1)%Q).
Proof.
  split.
  - split; [constructor|].
    eexists. split; [vm_compute; reflexivity|]. split; [reflexivity|].
    simpl. discriminate.
  - split; [discriminate|]. split.
    + replace (normalized_names (r_ingredients
                 (mkRecipe "Salted Water" ["salt "] "Boil." [])))
        with ["salt"] by (vm_compute; reflexivity).
      constructor; [|constructor].
      replace (normalized_names ["salt"]) with ["salt"]
        by (vm_compute; reflexivity).
      apply list_elem_of_here.
    + eexists. split; [vm_compute; reflexivity|]. split; [reflexivity|].
      simpl. discriminate.
Qed.

(** ** Normalization of the user's ingredients *)

Module PyStrFacts.
Import PyStr.

Ltac by_cases_on_char c :=
  destruct c as [[] [] [] [] [] [] [] []]; vm_compute; reflexivity.

Lemma lower_char_idem c : lower_char (lower_char c) = lower_char c.
Proof. by_cases_on_char c. Qed.

Lemma isspace_lower_char c : isspace (lower_char c) = isspace c.
Proof. by_cases_on_char c. Qed.

Lemma lower_idem s : lower (lower s) = lower s.
Proof.
  induction s as [|c s IH]; simpl; [reflexivity|].
  now rewrite lower_char_idem, IH.
Qed.

Lemma lstrip_lower s : lstrip (lower s) = lower (lstrip s).
Proof.
  induction s as [|c s IH]; simpl; [reflexivity|].
  rewrite isspace_lower_char. now destruct (isspace c).
Qed.

Lemma rstrip_lower s : rstrip (lower s) = lower (rstrip s).
Proof.
  induction s as [|c s IH]; simpl; [reflexivity|].
  rewrite IH, isspace_lower_char.
  destruct (rstrip s); simpl; [now destruct (isspace c)|reflexivity].
Qed.

Lemma strip_lower s : strip (lower s) = lower (strip s).
Proof. unfold strip. now rewrite lstrip_lower, rstrip_lower. Qed.

Lemma lstrip_head s :
  lstrip s = EmptyString
  \/ exists c t, lstrip s = String c t /\ isspace c = false.
Proof.
  induction s as [|c s IH]; simpl; [now left|].
  destruct (isspace c) eqn:E; [exact IH|]. right. eauto.
Qed.

Lemma rstrip_idem s : rstrip (rstrip s) = rstrip s.
Proof.
  induction s as [|c s IH]; simpl; [reflexivity|].
  destruct (rstrip s) as [|d r] eqn:E.
  - destruct (isspace c) eqn:Ec; simpl; [reflexivity|now rewrite Ec].
  - change (rstrip (String c (String d r)))
      with (match rstrip (String d r) with
            | EmptyString =>
                if isspace c then EmptyString else String c EmptyString
            | String _ _ as r' => String c r'
            end).
    now rewrite IH.
Qed.

Lemma rstrip_keeps_head c t :
  isspace c = false -> exists t', rstrip (String c t) = String c t'.
Proof.
  intros Hc. simpl. destruct (rstrip t); [rewrite Hc|]; eauto.
Qed.

Lemma strip_idem s : strip (strip s) = strip s.
Proof.
  unfold strip. destruct (lstrip_head s) as [->|(c & t & -> & Hc)];
    [reflexivity|].
  destruct (rstrip_keeps_head c t Hc) as [t' E].
  rewrite E. simpl lstrip. rewrite Hc, <- E. apply rstrip_idem.
Qed.

End PyStrFacts.

Lemma elem_of_user_set_of l x :
  x ∈ user_set_of l <-> normalized_token l x.
Proof.
  unfold user_set_of, normalized_token.
  rewrite elem_of_list_to_set, list_elem_of_In, map_map, in_map_iff.
  split.
  - intros (i & <- & Hi). apply filter_In in Hi as [Hi Ht].
    exists i. repeat split; [exact Hi|].
    intros E. rewrite E in Ht. discriminate.
  - intros (i & Hi & Hne & ->). exists i. split; [reflexivity|].
    apply filter_In. split; [exact Hi|].
    destruct (PyStr.strip i); [congruence|reflexivity].
Qed.

Lemma same_tokens_user_set l1 l2 :
  same_tokens l1 l2 <-> user_set_of l1 = user_set_of l2.
Proof.
  unfold same_tokens. split.
  - intros H. apply set_eq. intros x. now rewrite !elem_of_user_set_of.
  - intros H x. now rewrite <- !elem_of_user_set_of, H.
Qed.

(** Order, repetition, letter case and surrounding whitespace of the typed
    ingredients do not change the tokens. *)
Lemma same_tokens_permutation l1 l2 : Permutation l1 l2 -> same_tokens l1 l2.
Proof.
  intros HP x. unfold normalized_token.
  split; intros (i & Hi & H); exists i; (split; [|exact H]).
  - eapply Permutation_in; [exact HP|exact Hi].
  - eapply Permutation_in; [symmetry; exact HP|exact Hi].
Qed.

Lemma same_tokens_repeated l : same_tokens (l ++ l) l.
Proof.
  intros x. unfold normalized_token.
  split; intros (i & Hi & H); exists i; (split; [|exact H]).
  - apply in_app_or in Hi. tauto.
  - apply in_or_app. now left.
Qed.

Lemma same_tokens_lower l : same_tokens (map PyStr.lower l) l.
Proof.
  intros x. unfold normalized_token. split.
  - intros (i & Hi & Hne & ->). apply in_map_iff in Hi as (j & <- & Hj).
    exists j. rewrite PyStrFacts.strip_lower, PyStrFacts.lower_idem.
    repeat split; [exact Hj|].
    intros E. apply Hne. now rewrite PyStrFacts.strip_lower, E.
  - intros (i & Hi & Hne & ->). exists (PyStr.lower i).
    rewrite PyStrFacts.strip_lower, PyStrFacts.lower_idem.
    repeat split; [now apply in_map|].
    intros E. apply Hne. destruct (PyStr.strip i); [reflexivity|discriminate].
Qed.

Lemma same_tokens_strip l : same_tokens (map PyStr.strip l) l.
Proof.
  intros x. unfold normalized_token. split.
  - intros (i & Hi & Hne & ->). apply in_map_iff in Hi as (j & <- & Hj).
    exists j. rewrite PyStrFacts.strip_idem in Hne |- *. now repeat split.
  - intros (i & Hi & Hne & ->). exists (PyStr.strip i).
    rewrite PyStrFacts.strip_idem. repeat split; [now apply in_map|exact Hne].
Qed.

(** C9. Two lists of user ingredients that normalize to the same set of
    trimmed, lower-cased, non-empty tokens get the same result from
    [suggest_recipes] for the same [top_k]; lists that differ in the order or
    repetition of the tokens, in letter case or in surrounding whitespace are
    such lists ([same_tokens_permutation], [same_tokens_repeated],
    [same_tokens_lower], [same_tokens_strip]). *)
Theorem C9_same_tokens_same_result (l1 l2 : list string) (top_k : Z)
    (g : globals) :
  same_tokens l1 l2 ->
  suggest_recipes l1 top_k g = suggest_recipes l2 top_k g.
Proof.
  intros H. apply same_tokens_user_set in H.
  rewrite !suggest_recipes_run. now rewrite H.
Qed.

Lemma C9_same_tokens_same_result_witness :
  suggest_recipes ["Eggs"; " onion "; "eggs"; "  "] 3 module_globals
  = suggest_recipes ["ONION"; "eggs"] 3 module_globals.
Proof.
  apply (C9_same_tokens_same_result ["Eggs"; " onion "; "eggs"; "  "]
           ["ONION"; "eggs"] 3 module_globals).
  apply same_tokens_user_set. vm_compute. reflexivity.
Defined.

(** ** The scenarios of the design document, run on the model *)

Example scenario_equal_scores_keep_catalog_order :
  let a := mkRecipe "Toast" ["bread"; "butter"] "Toast the bread." [] in
  let b := mkRecipe "Buttered Rice" ["rice"; "butter"] "Boil the rice." [] in
  fst (suggest_recipes ["bread"; "butter"; "rice"] 2 (mkGlobals [a; b]))
  = inr [mkSuggestion "Toast" 1 ["bread"; "butter"] "Toast the bread.";
         mkSuggestion "Buttered Rice" 1 ["rice"; "butter"] "Boil the rice."].
Proof. vm_compute. reflexivity. Qed.

Example scenario_larger_score_first :
  let a := mkRecipe "Buttered Rice" ["rice"; "butter"] "Boil the rice." [] in
  let b := mkRecipe "Toast" ["bread"] "Toast the bread." [] in
  fst (suggest_recipes ["bread"; "butter"] 2 (mkGlobals [a; b]))
  = inr [mkSuggestion "Toast" 1 ["bread"] "Toast the bread.";
         mkSuggestion "Buttered Rice" (1 # 2) ["rice"; "butter"]
           "Boil the rice."].
Proof. vm_compute. reflexivity. Qed.

(** [on_search] splits on whitespace, so a catalog name with a space in it
    is never matched as a whole by a typed text. *)
Example scenario_on_search_tokens :
  on_search_ingredients "Olive Oil, TOMATO" = ["olive"; "oil"; "tomato"].
Proof. vm_compute. reflexivity. Qed.

(** * Further properties of the code *)

(** ** Characters of a string *)

Lemma all_chars_append p a b :
  all_chars p (String.append a b) = all_chars p a && all_chars p b.
Proof.
  induction a as [|c a IH]; simpl; [reflexivity|].
  now rewrite IH, andb_assoc.
Qed.

Lemma all_chars_of_list p l :
  all_chars p (string_of_list_ascii l) = forallb p l.
Proof. induction l as [|c l IH]; simpl; [|rewrite IH]; reflexivity. Qed.

Lemma forallb_rev {A} (p : A -> bool) l : forallb p (rev l) = forallb p l.
Proof.
  induction l as [|x l IH]; simpl; [reflexivity|].
  rewrite forallb_app, IH. simpl. rewrite andb_true_r. apply andb_comm.
Qed.

Lemma all_chars_impl (p q : ascii -> bool) s :
  (forall c, p c = true -> q c = true) ->
  all_chars p s = true -> all_chars q s = true.
Proof.
  intros Hpq. induction s as [|c s IH]; simpl; [reflexivity|].
  intros H. apply andb_true_iff in H as [Hc Hs].
  now rewrite (Hpq c Hc), IH.
Qed.

Lemma all_chars_lstrip p s :
  all_chars p s = true -> all_chars p (PyStr.lstrip s) = true.
Proof.
  induction s as [|c s IH]; simpl; [reflexivity|].
  intros H. destruct (PyStr.isspace c); [|exact H].
  apply andb_true_iff in H as [_ Hs]. now apply IH.
Qed.

Lemma all_chars_rstrip p s :
  all_chars p s = true -> all_chars p (PyStr.rstrip s) = true.
Proof.
  induction s as [|c s IH]; simpl; [reflexivity|].
  intros H. apply andb_true_iff in H as [Hc Hs]. specialize (IH Hs).
  destruct (PyStr.rstrip s) as [|d r].
  - destruct (PyStr.isspace c); simpl; [reflexivity|now rewrite Hc].
  - change (all_chars p (String c (String d r)))
      with (p c && all_chars p (String d r)).
    now rewrite Hc, IH.
Qed.

Lemma all_chars_strip p s :
  all_chars p s = true -> all_chars p (PyStr.strip s) = true.
Proof. intros H. now apply all_chars_rstrip, all_chars_lstrip. Qed.

Lemma all_chars_lower_id s :
  all_chars lower_fixed s = true -> PyStr.lower s = s.
Proof.
  induction s as [|c s IH]; simpl; [reflexivity|].
  intros H. apply andb_true_iff in H as [Hc Hs].
  apply Ascii.eqb_eq in Hc. now rewrite Hc, IH.
Qed.

(** A string without whitespace is its own [strip()]. *)
Lemma rstrip_no_space s : all_chars not_space s = true -> PyStr.rstrip s = s.
Proof.
  induction s as [|c s IH]; simpl; [reflexivity|].
  intros H. apply andb_true_iff in H as [Hc Hs]. rewrite (IH Hs).
  unfold not_space in Hc. apply negb_true_iff in Hc.
  destruct s; [now rewrite Hc|reflexivity].
Qed.

Lemma strip_no_space s : all_chars not_space s = true -> PyStr.strip s = s.
Proof.
  intros H. unfold PyStr.strip.
  assert (E : PyStr.lstrip s = s).
  { destruct s as [|c s]; [reflexivity|]. simpl in *.
    apply andb_true_iff in H as [Hc _]. unfold not_space in Hc.
    apply negb_true_iff in Hc. now rewrite Hc. }
  rewrite E. now apply rstrip_no_space.
Qed.

(** [strip()] gives the empty string exactly on whitespace. *)
Lemma lstrip_empty_iff s :
  PyStr.lstrip s = EmptyString <-> all_chars PyStr.isspace s = true.
Proof.
  induction s as [|c s IH]; simpl; [tauto|].
  destruct (PyStr.isspace c); simpl; [exact IH|].
  split; discriminate.
Qed.

Lemma strip_empty_iff s :
  PyStr.strip s = EmptyString <-> all_chars PyStr.isspace s = true.
Proof.
  rewrite <- lstrip_empty_iff. unfold PyStr.strip. split.
  - intros H.
    destruct (PyStrFacts.lstrip_head s) as [E|(c & t & E & Hc)]; [exact E|].
    rewrite E in H.
    destruct (PyStrFacts.rstrip_keeps_head c t Hc) as [t' E'].
    congruence.
  - intros ->. reflexivity.
Qed.

(** ** The tokens of [on_search] *)

Lemma flush_app cur (acc : list string) :
  PyStr.flush cur acc = PyStr.flush cur [] ++ acc.
Proof. destruct cur; reflexivity. Qed.

Lemma string_of_rev_nonempty c cur :
  string_of_list_ascii (rev (c :: cur)) <> EmptyString.
Proof.
  simpl. destruct (rev cur); simpl; discriminate.
Qed.

Lemma flush_chars p cur :
  forallb p cur = true ->
  Forall (fun t => t <> EmptyString /\ all_chars p t = true)
    (PyStr.flush cur []).
Proof.
  intros Hcur. destruct cur as [|d cur]; [constructor|].
  unfold PyStr.flush. constructor; [|constructor].
  split; [apply string_of_rev_nonempty|].
  now rewrite all_chars_of_list, forallb_rev.
Qed.

(** Tokens are non-empty, and made of characters of the text. *)
Lemma split_from_chars p s : forall cur,
  all_chars p s = true -> forallb p cur = true ->
  Forall (fun t => t <> EmptyString /\ all_chars p t = true)
    (PyStr.split_from s cur).
Proof.
  induction s as [|c s IH]; intros cur Hs Hcur; simpl.
  - now apply flush_chars.
  - simpl in Hs. apply andb_true_iff in Hs as [Hc Hs].
    destruct (PyStr.isspace c).
    + rewrite flush_app. apply Forall_app.
      split; [now apply flush_chars|now apply IH].
    + apply IH; [exact Hs|]. simpl. now rewrite Hc.
Qed.

(** The characters of a token are not whitespace, whatever the text. *)
Lemma split_from_no_space s : forall cur,
  forallb not_space cur = true ->
  Forall (fun t => all_chars not_space t = true) (PyStr.split_from s cur).
Proof.
  induction s as [|c s IH]; intros cur Hcur; simpl.
  - eapply List.Forall_impl; [|apply (flush_chars not_space cur Hcur)].
    intros t [_ H]. exact H.
  - destruct (PyStr.isspace c) eqn:Ec.
    + rewrite flush_app. apply Forall_app. split; [|now apply IH].
      eapply List.Forall_impl; [|apply (flush_chars not_space cur Hcur)].
      intros t [_ H]. exact H.
    + apply IH. simpl. unfold not_space at 1. now rewrite Ec.
Qed.

Lemma split_from_nil s : forall cur,
  PyStr.split_from s cur = [] ->
  cur = [] /\ all_chars PyStr.isspace s = true.
Proof.
  induction s as [|c s IH]; intros cur H; simpl in *.
  - destruct cur; [now split|discriminate].
  - destruct (PyStr.isspace c).
    + rewrite flush_app in H. apply app_eq_nil in H as [Hcur Hs].
      destruct (IH [] Hs) as [_ Hall].
      destruct cur; [now split|discriminate].
    + destruct (IH _ H) as [Hcur _]. discriminate.
Qed.

(** What [raw = ingredient_string.lower().replace(",", " ")] is made of. *)
Lemma raw_char_facts c :
  let c' := if Ascii.eqb (PyStr.lower_char c) ","%char then " "%char
            else PyStr.lower_char c in
  not_comma c' = true
  /\ lower_fixed c' = true
  /\ PyStr.isspace c' = (PyStr.isspace c || Ascii.eqb c ","%char)%bool.
Proof. destruct c as [[] [] [] [] [] [] [] []]; vm_compute; auto. Qed.

Lemma raw_chars text :
  let raw := PyStr.replace_comma (PyStr.lower text) in
  all_chars not_comma raw = true
  /\ all_chars lower_fixed raw = true
  /\ all_chars PyStr.isspace raw = blank text.
Proof.
  induction text as [|c s (IH1 & IH2 & IH3)]; simpl; [auto|].
  destruct (raw_char_facts c) as (H1 & H2 & H3). simpl in H1, H2, H3.
  rewrite H1, H2, H3, IH1, IH2, IH3. auto.
Qed.

Lemma filter_strip_tokens (l : list string) :
  Forall (fun t => t <> EmptyString /\ all_chars not_space t = true) l ->
  map PyStr.strip
    (List.filter (fun i => PyStr.truthy (PyStr.strip i)) l) = l.
Proof.
  induction 1 as [|t l [Hne Hsp] _ IH]; simpl; [reflexivity|].
  rewrite (strip_no_space t Hsp).
  destruct t as [|c t]; [congruence|]. simpl.
  rewrite (strip_no_space (String c t) Hsp). now rewrite IH.
Qed.

Lemma split_tokens_no_space s :
  Forall (fun t => t <> EmptyString /\ all_chars not_space t = true)
    (PyStr.split s).
Proof.
  pose proof (split_from_chars (fun _ => true) s []) as Hne.
  pose proof (split_from_no_space s [] eq_refl) as Hsp.
  assert (Htrue : all_chars (fun _ => true) s = true).
  { clear. induction s as [|c s IH]; simpl; [reflexivity|exact IH]. }
  specialize (Hne Htrue eq_refl). unfold PyStr.split.
  rewrite List.Forall_forall in Hne, Hsp |- *. intros t Ht.
  split; [apply (Hne t Ht)|apply (Hsp t Ht)].
Qed.

Lemma on_search_ingredients_split ingredient_string :
  on_search_ingredients ingredient_string
  = PyStr.split (PyStr.replace_comma (PyStr.lower ingredient_string)).
Proof.
  unfold on_search_ingredients.
  apply filter_strip_tokens, split_tokens_no_space.
Qed.

Lemma on_search_tokens_clean ingredient_string :
  Forall (fun t => t <> EmptyString
                   /\ all_chars not_space t = true
                   /\ all_chars not_comma t = true
                   /\ PyStr.lower t = t)
    (on_search_ingredients ingredient_string).
Proof.
  rewrite on_search_ingredients_split.
  set (raw := PyStr.replace_comma (PyStr.lower ingredient_string)).
  destruct (raw_chars ingredient_string) as (Hc & Hl & _). fold raw in Hc, Hl.
  pose proof (split_tokens_no_space raw) as H1.
  pose proof (split_from_chars not_comma raw [] Hc eq_refl) as H2.
  pose proof (split_from_chars lower_fixed raw [] Hl eq_refl) as H3.
  unfold PyStr.split in *.
  rewrite List.Forall_forall in H1, H2, H3 |- *. intros t Ht.
  destruct (H1 t Ht) as [Hne Hsp].
  repeat split; [exact Hne|exact Hsp|apply (H2 t Ht)|].
  apply all_chars_lower_id, (H3 t Ht).
Qed.

(** X1. The list that [on_search] hands to the worker is [raw.split()]
    itself: the comprehension's [strip()] and its filter change nothing.
    Every ingredient in it is non-empty, holds no whitespace and no comma,
    and is lower-case. *)
Theorem X1_on_search_ingredients_are_clean_tokens (ingredient_string : string) :
  on_search_ingredients ingredient_string
  = PyStr.split (PyStr.replace_comma (PyStr.lower ingredient_string))
  /\ Forall (fun t => t <> EmptyString
                      /\ all_chars not_space t = true
                      /\ all_chars not_comma t = true
                      /\ PyStr.lower t = t)
       (on_search_ingredients ingredient_string).
Proof.
  split; [apply on_search_ingredients_split|apply on_search_tokens_clean].
Qed.

(** X2. [on_search] hands the worker the empty list exactly when the text
    is made of whitespace and commas only (the empty text included). *)
Theorem X2_on_search_ingredients_empty_iff_blank (ingredient_string : string) :
  on_search_ingredients ingredient_string = []
  <-> blank ingredient_string = true.
Proof.
  split.
  - intros H. rewrite on_search_ingredients_split in H.
    apply split_from_nil in H as [_ H].
    destruct (raw_chars ingredient_string) as (_ & _ & Hb). now rewrite <- Hb.
  - intros H. apply (blank_text_has_no_token _ H).
Qed.

(** ** More on the score of one recipe *)

(** A property of every pair (recipe, its dict) holds along the list
    [scored] that the loop builds. *)
Lemma scored_Forall2 (P : Recipe -> Suggestion -> Prop) user_set g :
  (forall r, P r (suggestion_of user_set r)) ->
  exists scored : list Suggestion,
    for_each (g_recipes g) (score_recipe user_set) [] g = (inr scored, g)
    /\ Forall2 P (g_recipes g) scored.
Proof.
  intros HP. exists (map (suggestion_of user_set) (g_recipes g)).
  split; [apply for_each_score_run|].
  induction (g_recipes g) as [|r rs IH]; simpl; constructor; auto.
Qed.

Section ScoreFacts.
Context (user_set : gset string) (r : Recipe).

Let r_set : gset string := list_to_set (map PyStr.lower (r_ingredients r)).

Lemma elem_of_r_set x :
  x ∈ r_set <-> exists i, In i (r_ingredients r) /\ x = PyStr.lower i.
Proof.
  unfold r_set. rewrite elem_of_list_to_set, list_elem_of_In, in_map_iff.
  split; intros (i & H1 & H2); exists i; auto.
Qed.

Lemma score_value_zero_iff :
  score_value user_set r = 0%Q
  <-> forall i, In i (r_ingredients r) -> PyStr.lower i ∉ user_set.
Proof.
  unfold score_value. fold r_set. split.
  - intros H i Hi Hin.
    assert (Hq : (Z.of_nat (size (user_set ∩ r_set))
                  # Z.to_pos (Z.of_nat (Nat.max 1 (size r_set))) == 0)%Q)
      by (rewrite <- Qred_correct, H; reflexivity).
    unfold Qeq in Hq; simpl in Hq.
    assert (Hs : size (user_set ∩ r_set) = 0) by lia.
    apply size_empty_iff in Hs.
    assert (Hx : PyStr.lower i ∈ user_set ∩ r_set).
    { apply elem_of_intersection. split; [exact Hin|].
      apply elem_of_r_set. eauto. }
    rewrite Hs in Hx. now apply not_elem_of_empty in Hx.
  - intros H.
    assert (Hs : user_set ∩ r_set = ∅).
    { apply set_eq. intros x. split; [|intros Hx; now apply not_elem_of_empty in Hx].
      intros Hx. apply elem_of_intersection in Hx as [Hu Hr].
      apply elem_of_r_set in Hr as (i & Hi & ->). now destruct (H i Hi). }
    rewrite Hs, size_empty. reflexivity.
Qed.

Lemma score_value_one_iff :
  score_value user_set r = 1%Q
  <-> r_ingredients r <> []
      /\ forall i, In i (r_ingredients r) -> PyStr.lower i ∈ user_set.
Proof.
  split.
  - intros H.
    assert (Hq : (Z.of_nat (size (user_set ∩ r_set))
                  # Z.to_pos (Z.of_nat (Nat.max 1 (size r_set))) == 1)%Q)
      by (unfold score_value in H; fold r_set in H;
          rewrite <- Qred_correct, H; reflexivity).
    unfold Qeq in Hq; simpl in Hq. rewrite Z2Pos.id in Hq by lia.
    pose proof (size_intersection_le user_set r_set) as Hle.
    assert (Hsize : size (user_set ∩ r_set) = size r_set /\ 0 < size r_set)
      by lia.
    destruct Hsize as [Hsize Hpos]. split.
    + intros E. unfold r_set in Hpos. rewrite E in Hpos.
      change (0 < size (∅ : gset string)) in Hpos.
      rewrite size_empty in Hpos. lia.
    + intros i Hi.
      assert (Heq : user_set ∩ r_set = r_set).
      { apply set_subseteq_size_eq; [apply intersection_subseteq_r|lia]. }
      assert (Hx : PyStr.lower i ∈ r_set) by (apply elem_of_r_set; eauto).
      rewrite <- Heq in Hx. now apply elem_of_intersection in Hx as [Hu _].
  - intros [Hne Hall]. apply score_value_full; [exact Hne|].
    apply Forall_forall. intros x Hx. unfold lowercased_names in Hx.
    apply elem_of_remove_dups, list_elem_of_In, in_map_iff in Hx.
    destruct Hx as (i & <- & Hi). now apply Hall.
Qed.

Lemma score_value_unmatched_lt_1 i :
  In i (r_ingredients r) -> PyStr.lower i ∉ user_set ->
  (score_value user_set r < 1)%Q.
Proof.
  intros Hi Hnot.
  destruct (Qlt_le_dec (score_value user_set r) 1) as [Hlt|Hge]; [exact Hlt|].
  exfalso. apply Hnot.
  assert (H1 : score_value user_set r = 1%Q).
  { pose proof (score_value_bounds user_set r) as [_ Hle].
    assert (Heq : (score_value user_set r == 1)%Q) by now apply Qle_antisym.
    unfold score_value in *. rewrite Qred_correct in Heq.
    apply Qred_complete in Heq. exact Heq. }
  apply score_value_one_iff in H1 as [_ Hall]. now apply Hall.
Qed.

End ScoreFacts.

Lemma score_value_mono (us1 us2 : gset string) r :
  us1 ⊆ us2 -> (score_value us1 r <= score_value us2 r)%Q.
Proof.
  intros Hsub. unfold score_value. rewrite !Qred_correct.
  set (r_set := list_to_set (map PyStr.lower (r_ingredients r)) : gset string).
  assert (Hle : size (us1 ∩ r_set) <= size (us2 ∩ r_set)).
  { apply subseteq_size. intros x Hx.
    apply elem_of_intersection in Hx as [H1 H2].
    apply elem_of_intersection. split; [now apply Hsub|exact H2]. }
  unfold Qle; simpl. apply Z.mul_le_mono_nonneg_r; lia.
Qed.

Lemma user_set_of_app l1 l2 :
  user_set_of (l1 ++ l2) = user_set_of l1 ∪ user_set_of l2.
Proof.
  apply set_eq. intros x.
  rewrite elem_of_union, !elem_of_user_set_of. unfold normalized_token.
  split.
  - intros (i & Hi & H). apply in_app_or in Hi as [Hi|Hi]; [left|right]; eauto.
  - intros [(i & Hi & H)|(i & Hi & H)]; exists i; split; auto;
      apply in_or_app; auto.
Qed.

(** X8. Naming more ingredients never lowers a score: the dict that the
    loop of [suggest_recipes] builds for a recipe from the list
    [user_ingredients ++ more] has a score at least that of the dict it
    builds from [user_ingredients], and the same name. *)
Theorem X8_more_ingredients_never_lower_a_score
    (user_ingredients more : list string) (g : globals) :
  exists scored scored' : list Suggestion,
    for_each (g_recipes g) (score_recipe (user_set_of user_ingredients)) [] g
    = (inr scored, g)
    /\ for_each (g_recipes g)
         (score_recipe (user_set_of (user_ingredients ++ more))) [] g
       = (inr scored', g)
    /\ Forall2 (fun s s' => name s = name s' /\ (score s <= score s')%Q)
         scored scored'.
Proof.
  exists (map (suggestion_of (user_set_of user_ingredients)) (g_recipes g)),
    (map (suggestion_of (user_set_of (user_ingredients ++ more))) (g_recipes g)).
  split; [apply for_each_score_run|]. split; [apply for_each_score_run|].
  induction (g_recipes g) as [|r rs IH]; simpl; constructor; [|exact IH].
  split; [reflexivity|]. simpl. apply score_value_mono.
  rewrite user_set_of_app. apply union_subseteq_l.
Qed.

(** X9. The dict of a recipe has the score 0 exactly when none of the
    recipe's lower-cased ingredients is in the user's set, and the score 1
    exactly when the recipe lists an ingredient and all its lower-cased
    ingredients are in the user's set. *)
Theorem X9_score_zero_and_one (user_ingredients : list string) (g : globals) :
  let user_set := user_set_of user_ingredients in
  exists scored : list Suggestion,
    for_each (g_recipes g) (score_recipe user_set) [] g = (inr scored, g)
    /\ Forall2 (fun r s =>
          (score s = 0%Q
           <-> forall i, In i (r_ingredients r) -> PyStr.lower i ∉ user_set)
          /\ (score s = 1%Q
              <-> r_ingredients r <> []
                  /\ forall i, In i (r_ingredients r) ->
                               PyStr.lower i ∈ user_set))
         (g_recipes g) scored.
Proof.
  intros user_set. apply scored_Forall2. intros r. simpl.
  split; [apply score_value_zero_iff|apply score_value_one_iff].
Qed.

(** ** What a query can and cannot match *)

Lemma lower_char_classes c :
  not_space (PyStr.lower_char c) = not_space c
  /\ not_comma (PyStr.lower_char c) = not_comma c.
Proof. destruct c as [[] [] [] [] [] [] [] []]; vm_compute; auto. Qed.

Lemma all_chars_lower_classes s :
  all_chars not_space (PyStr.lower s) = all_chars not_space s
  /\ all_chars not_comma (PyStr.lower s) = all_chars not_comma s.
Proof.
  induction s as [|c s [IH1 IH2]]; simpl; [auto|].
  destruct (lower_char_classes c) as [-> ->]. now rewrite IH1, IH2.
Qed.

Lemma length_lower s : String.length (PyStr.lower s) = String.length s.
Proof. induction s as [|c s IH]; simpl; [|rewrite IH]; reflexivity. Qed.

Lemma lstrip_length s :
  String.length (PyStr.lstrip s) <= String.length s
  /\ (String.length (PyStr.lstrip s) = String.length s -> PyStr.lstrip s = s).
Proof.
  induction s as [|c s [IH1 IH2]]; simpl; [auto|].
  destruct (PyStr.isspace c); simpl; [|auto].
  split; [lia|intros H; lia].
Qed.

Lemma rstrip_length s :
  String.length (PyStr.rstrip s) <= String.length s
  /\ (String.length (PyStr.rstrip s) = String.length s -> PyStr.rstrip s = s).
Proof.
  induction s as [|c s [IH1 IH2]]; simpl; [auto|].
  destruct (PyStr.rstrip s) as [|d t] eqn:E.
  - destruct (PyStr.isspace c); simpl in *.
    + split; [lia|intros H; lia].
    + split; [lia|]. intros H. f_equal. apply IH2. lia.
  - simpl in *. split; [lia|]. intros H. f_equal. apply IH2. lia.
Qed.

Lemma strip_fixed_of_lower s :
  PyStr.lower (PyStr.strip s) = PyStr.lower s -> PyStr.strip s = s.
Proof.
  intros H. apply (f_equal String.length) in H. rewrite !length_lower in H.
  unfold PyStr.strip in *.
  destruct (lstrip_length s) as [Hl1 Hl2].
  destruct (rstrip_length (PyStr.lstrip s)) as [Hr1 Hr2].
  rewrite Hr2 by lia. apply Hl2. lia.
Qed.

(** Every element of the user's set is a non-empty, trimmed, lower-case
    string. *)
Lemma user_set_elements l x :
  x ∈ user_set_of l ->
  x <> EmptyString /\ PyStr.strip x = x /\ PyStr.lower x = x.
Proof.
  intros H. apply elem_of_user_set_of in H as (i & _ & Hne & ->).
  split; [|split].
  - destruct (PyStr.strip i); [congruence|discriminate].
  - now rewrite PyStrFacts.strip_lower, PyStrFacts.strip_idem.
  - apply PyStrFacts.lower_idem.
Qed.

Lemma user_set_on_search_elements text x :
  x ∈ user_set_of (on_search_ingredients text) ->
  all_chars not_space x = true /\ all_chars not_comma x = true.
Proof.
  intros H. apply elem_of_user_set_of in H as (t & Ht & _ & ->).
  pose proof (on_search_tokens_clean text) as Hclean.
  rewrite List.Forall_forall in Hclean.
  destruct (Hclean t Ht) as (_ & Hsp & Hco & Hlow).
  now rewrite (strip_no_space t Hsp), Hlow.
Qed.

(** X4. Whatever text is typed, an ingredient of a recipe that holds a
    whitespace character or a comma (such as "olive oil") is not in the set
    that [on_search] makes the engine match against, so the dict of a recipe
    with such an ingredient has a score below 1. *)
Theorem X4_on_search_never_matches_a_two_word_ingredient
    (ingredient_string : string) (g : globals) :
  let user_set := user_set_of (on_search_ingredients ingredient_string) in
  exists scored : list Suggestion,
    for_each (g_recipes g) (score_recipe user_set) [] g = (inr scored, g)
    /\ Forall2 (fun r s =>
          forall i, In i (r_ingredients r) ->
                    (all_chars not_space i = false
                     \/ all_chars not_comma i = false) ->
                    (PyStr.lower i ∉ user_set) /\ (score s < 1)%Q)
         (g_recipes g) scored.
Proof.
  intros user_set. apply scored_Forall2. intros r i Hi Hbad.
  assert (Hnot : PyStr.lower i ∉ user_set).
  { intros Hin. apply user_set_on_search_elements in Hin as [Hsp Hco].
    destruct (all_chars_lower_classes i) as [E1 E2].
    rewrite E1 in Hsp. rewrite E2 in Hco. destruct Hbad; congruence. }
  split; [exact Hnot|]. simpl.
  now apply (score_value_unmatched_lt_1 user_set r i).
Qed.

(** X12. The engine trims the user's ingredients and not the catalog's: an
    ingredient of a recipe that is the empty string, or that has leading or
    trailing whitespace, is matched by no list of user ingredients, and the
    dict of a recipe with such an ingredient has a score below 1. *)
Theorem X12_untrimmed_catalog_ingredient_never_matches
    (user_ingredients : list string) (g : globals) :
  let user_set := user_set_of user_ingredients in
  exists scored : list Suggestion,
    for_each (g_recipes g) (score_recipe user_set) [] g = (inr scored, g)
    /\ Forall2 (fun r s =>
          forall i, In i (r_ingredients r) ->
                    (i = EmptyString \/ PyStr.strip i <> i) ->
                    (PyStr.lower i ∉ user_set) /\ (score s < 1)%Q)
         (g_recipes g) scored.
Proof.
  intros user_set. apply scored_Forall2. intros r i Hi Hbad.
  assert (Hnot : PyStr.lower i ∉ user_set).
  { intros Hin. apply user_set_elements in Hin as (Hne & Hstrip & _).
    destruct Hbad as [->|Hbad]; [now apply Hne|].
    apply Hbad, strip_fixed_of_lower.
    now rewrite <- PyStrFacts.strip_lower. }
  split; [exact Hnot|]. simpl.
  now apply (score_value_unmatched_lt_1 user_set r i).
Qed.

Example olive_oil_not_reachable_from_on_search :
  PyStr.lower "olive oil"
    ∉ user_set_of (on_search_ingredients "olive oil, tomato").
Proof.
  intros H. apply user_set_on_search_elements in H as [H _].
  vm_compute in H. discriminate H.
Qed.

(** ** Texts put together *)

Lemma lower_append a b :
  PyStr.lower (String.append a b)
  = String.append (PyStr.lower a) (PyStr.lower b).
Proof. induction a as [|c a IH]; simpl; [|rewrite IH]; reflexivity. Qed.

Lemma replace_comma_append a b :
  PyStr.replace_comma (String.append a b)
  = String.append (PyStr.replace_comma a) (PyStr.replace_comma b).
Proof. induction a as [|c a IH]; simpl; [|rewrite IH]; reflexivity. Qed.

Lemma flush_app_r cur (x y : list string) :
  PyStr.flush cur (x ++ y) = PyStr.flush cur x ++ y.
Proof. destruct cur; reflexivity. Qed.

(** A whitespace character ends the token being read. *)
Lemma split_from_app_space a c b : forall cur,
  PyStr.isspace c = true ->
  PyStr.split_from (String.append a (String c b)) cur
  = PyStr.split_from a cur ++ PyStr.split_from b [].
Proof.
  induction a as [|d a IH]; intros cur Hc; simpl.
  - rewrite Hc. apply flush_app.
  - destruct (PyStr.isspace d).
    + rewrite IH by exact Hc. apply flush_app_r.
    + now apply IH.
Qed.

(** X3. A comma or a whitespace character between two texts separates
    their ingredients: [on_search] hands the worker the ingredients of the
    first text followed by those of the second, and the set the engine
    matches against is the union of the two sets. *)
Theorem X3_on_search_of_joined_texts (a b : string) (c : ascii) :
  (PyStr.isspace c || Ascii.eqb c ","%char)%bool = true ->
  on_search_ingredients (String.append a (String c b))
  = on_search_ingredients a ++ on_search_ingredients b
  /\ user_set_of (on_search_ingredients (String.append a (String c b)))
     = user_set_of (on_search_ingredients a)
       ∪ user_set_of (on_search_ingredients b).
Proof.
  intros Hc.
  assert (E : on_search_ingredients (String.append a (String c b))
              = on_search_ingredients a ++ on_search_ingredients b).
  { rewrite !on_search_ingredients_split. unfold PyStr.split.
    rewrite lower_append, replace_comma_append. simpl.
    apply split_from_app_space.
    destruct (raw_char_facts c) as (_ & _ & H). simpl in H.
    now rewrite H. }
  split; [exact E|]. rewrite E. apply user_set_of_app.
Qed.

Lemma X3_on_search_of_joined_texts_witness :
  on_search_ingredients (String.append "Eggs" (String ","%char " onion"))
  = on_search_ingredients "Eggs" ++ on_search_ingredients " onion"
  /\ user_set_of
       (on_search_ingredients (String.append "Eggs" (String ","%char " onion")))
     = user_set_of (on_search_ingredients "Eggs")
       ∪ user_set_of (on_search_ingredients " onion").
Proof.
  apply (X3_on_search_of_joined_texts "Eggs" " onion" ","%char).
  vm_compute. reflexivity.
Defined.

(** ** The guard of [on_find] and the worker *)

(** X5. [on_find] shows the warning exactly when the text is made of
    whitespace only (the empty text included); every other text is emitted
    unchanged with [start_search]. *)
Theorem X5_on_find_warns_exactly_on_whitespace (text : string) :
  (all_chars PyStr.isspace text = true
   <-> on_find text
       = Warning "Empty" "Please type some ingredients or use the mic.")
  /\ (all_chars PyStr.isspace text = false
      <-> on_find text = StartSearch text).
Proof.
  unfold on_find. pose proof (strip_empty_iff text) as Hiff.
  destruct (PyStr.strip text) as [|c t] eqn:E; simpl.
  - assert (H : all_chars PyStr.isspace text = true) by now apply Hiff.
    rewrite H. repeat split; auto; discriminate.
  - destruct (all_chars PyStr.isspace text) eqn:H.
    + destruct Hiff as [_ Hiff]. discriminate (Hiff eq_refl).
    + repeat split; auto; discriminate.
Qed.

Lemma suggest_recipes_no_token user_ingredients top_k g :
  user_set_of user_ingredients = ∅ ->
  suggest_recipes user_ingredients top_k g
  = (inr (slice_to (map unmatched (g_recipes g)) top_k), g).
Proof.
  intros Hempty. rewrite suggest_recipes_run, Hempty.
  assert (Hmap : map (suggestion_of ∅) (g_recipes g)
                 = map unmatched (g_recipes g)).
  { apply map_ext. intros r. unfold suggestion_of, unmatched.
    now rewrite score_value_empty. }
  rewrite Hmap, (sort_desc_same_key score 0%Q); [reflexivity|].
  apply List.Forall_forall. intros s Hs. apply in_map_iff in Hs.
  destruct Hs as (r & <- & _). reflexivity.
Qed.

(** X6. The guard of [on_find] does not stop a text of commas: a text made
    of commas and whitespace with at least one comma is emitted with
    [start_search], and the search it starts returns the first three catalog
    recipes (all of them if there are fewer), in catalog order, each with
    the score 0. *)
Theorem X6_comma_text_passes_the_guard (text : string) (g : globals) :
  blank text = true ->
  all_chars PyStr.isspace text = false ->
  on_find text = StartSearch text
  /\ on_search text g = (inr (take 3 (map unmatched (g_recipes g))), g).
Proof.
  intros Hblank Hcomma. split.
  - unfold on_find. pose proof (strip_empty_iff text) as Hiff.
    destruct (PyStr.strip text); simpl; [|reflexivity].
    destruct Hiff as [Hiff _]. rewrite Hiff in Hcomma by reflexivity.
    discriminate.
  - unfold on_search. rewrite suggest_recipes_no_token; [reflexivity|].
    apply (blank_text_has_no_token text Hblank).
Qed.

Lemma X6_comma_text_passes_the_guard_witness :
  on_find " , ," = StartSearch " , ,"
  /\ on_search " , ," module_globals
     = (inr (take 3 (map unmatched (g_recipes module_globals))),
        module_globals).
Proof.
  apply (X6_comma_text_passes_the_guard " , ," module_globals);
    vm_compute; reflexivity.
Defined.

(** X7. [SearchWorker.run] never emits [error]: whatever the ingredients
    and the catalog, it emits [finished], with [min(3, len(recipes))]
    results, and leaves the catalog as it was. *)
Theorem X7_search_worker_always_finishes (ingredients : list string)
    (g : globals) :
  exists results,
    SearchWorker_run ingredients g = (Finished results, g)
    /\ length results = Nat.min 3 (length (g_recipes g)).
Proof.
  unfold SearchWorker_run. rewrite suggest_recipes_run.
  eexists. split; [reflexivity|].
  unfold slice_to. change (3 <? 0)%Z with false. cbv iota.
  change (Z.to_nat 3) with 3.
  rewrite length_take, sort_desc_length, length_map. reflexivity.
Qed.

(** ** The results against the rest of the catalog *)

Lemma sort_desc_sorted {A} (key : A -> Q) l :
  StronglySorted (fun a b => (key b <= key a)%Q) (sort_desc key l).
Proof.
  induction l as [|x l IH]; simpl; [constructor|].
  induction IH as [|y l' Hl' IH' Hy]; simpl; [repeat constructor|].
  destruct (Qle_bool (key y) (key x)) eqn:E.
  - apply Qle_bool_iff in E. constructor; [now constructor|].
    constructor; [exact E|].
    eapply List.Forall_impl; [|exact Hy]. intros z Hz. simpl in Hz.
    now apply Qle_trans with (key y).
  - assert (Hlt : (key x < key y)%Q).
    { apply Qnot_le_lt. intros Hle. apply Qle_bool_iff in Hle. congruence. }
    constructor; [exact IH'|].
    apply Forall_insert_desc; [now apply Qlt_le_weak|exact Hy].
Qed.

Lemma StronglySorted_app_cross {A} (R : A -> A -> Prop) l1 l2 :
  StronglySorted R (l1 ++ l2) ->
  forall a b, In a l1 -> In b l2 -> R a b.
Proof.
  induction l1 as [|x l1 IH]; simpl; intros H a b Ha Hb; [tauto|].
  inversion H as [|? ? Hs Hx]; subst. destruct Ha as [->|Ha].
  - rewrite List.Forall_forall in Hx. apply Hx, in_or_app. now right.
  - now apply IH.
Qed.

(** X10. The results are the best of the catalog: the dicts that
    [suggest_recipes] returns, together with the dicts it leaves out, are
    the dicts of the whole catalog, and no dict left out has a larger score
    than a returned one.  With [top_k] at least the size of the catalog
    nothing is left out. *)
Theorem X10_results_are_the_best_matches (user_ingredients : list string)
    (top_k : Z) (g : globals) :
  let user_set := user_set_of user_ingredients in
  exists scored res rest : list Suggestion,
    for_each (g_recipes g) (score_recipe user_set) [] g = (inr scored, g)
    /\ suggest_recipes user_ingredients top_k g = (inr res, g)
    /\ Permutation scored (res ++ rest)
    /\ (forall s t, In s res -> In t rest -> (score t <= score s)%Q)
    /\ ((Z.of_nat (length (g_recipes g)) <= top_k)%Z -> rest = []).
Proof.
  intros user_set.
  set (scored := map (suggestion_of user_set) (g_recipes g)).
  set (sorted := sort_desc score scored).
  destruct (slice_to_take sorted top_k) as [n Hn].
  exists scored, (take n sorted), (drop n sorted).
  split; [apply for_each_score_run|].
  split; [rewrite suggest_recipes_run; fold user_set scored sorted;
          now rewrite Hn|].
  rewrite take_drop. split; [apply sort_desc_perm|]. split.
  - intros s t Hs Ht.
    apply (StronglySorted_app_cross (fun a b => (score b <= score a)%Q)
             (take n sorted) (drop n sorted)); [|exact Hs|exact Ht].
    rewrite take_drop. apply sort_desc_sorted.
  - intros Hk.
    assert (Hlen : length sorted = length (g_recipes g)).
    { unfold sorted, scored. now rewrite sort_desc_length, length_map. }
    assert (Hall : take n sorted = sorted).
    { rewrite <- Hn. unfold slice_to.
      destruct (Z.ltb_spec top_k 0) as [?|_]; [lia|].
      apply take_ge. lia. }
    apply (f_equal length) in Hall. rewrite length_take in Hall.
    apply drop_ge. lia.
Qed.

(** X11. Asking for more results keeps the ones already shown: for
    [0 <= k <= k'], the list returned for [top_k = k] is the first [k]
    elements of the list returned for [top_k = k']. *)
Theorem X11_fewer_results_are_a_prefix (user_ingredients : list string)
    (k k' : Z) (g : globals) :
  (0 <= k <= k')%Z ->
  exists res res' : list Suggestion,
    suggest_recipes user_ingredients k g = (inr res, g)
    /\ suggest_recipes user_ingredients k' g = (inr res', g)
    /\ res = take (Z.to_nat k) res'.
Proof.
  intros Hk. rewrite !suggest_recipes_run.
  do 2 eexists. split; [reflexivity|]. split; [reflexivity|].
  unfold slice_to.
  destruct (Z.ltb_spec k 0) as [?|_]; [lia|].
  destruct (Z.ltb_spec k' 0) as [?|_]; [lia|].
  rewrite take_take. f_equal. lia.
Qed.

Lemma X11_fewer_results_are_a_prefix_witness :
  exists res res' : list Suggestion,
    suggest_recipes ["onion"; "rice"] 1 module_globals
    = (inr res, module_globals)
    /\ suggest_recipes ["onion"; "rice"] 3 module_globals
       = (inr res', module_globals)
    /\ res = take (Z.to_nat 1) res'.
Proof.
  apply (X11_fewer_results_are_a_prefix ["onion"; "rice"] 1 3 module_globals).
  lia.
Defined.

(** ** The comma tokenizer of [MealMaker.suggest] *)

Lemma split_comma_pieces s :
  Forall (fun t => all_chars not_comma t = true) (split_comma s).
Proof.
  induction s as [|c s IH]; simpl; [repeat constructor|].
  destruct (Ascii.eqb c ","%char) eqn:E; [now constructor|].
  destruct (split_comma s) as [|t ts]; [repeat constructor|].
  - simpl. unfold not_comma. now rewrite E.
  - inversion IH as [|? ? Ht Hts]; subst. constructor; [|exact Hts].
    simpl. unfold not_comma at 1. now rewrite E, Ht.
Qed.

Lemma split_comma_app a b :
  all_chars not_comma a = true ->
  split_comma (String.append a (String ","%char b)) = a :: split_comma b.
Proof.
  induction a as [|c a IH]; simpl; [reflexivity|].
  intros H. apply andb_true_iff in H as [Hc Ha].
  unfold not_comma in Hc. apply negb_true_iff in Hc.
  now rewrite Hc, (IH Ha).
Qed.

Lemma split_comma_single a :
  all_chars not_comma a = true -> split_comma a = [a].
Proof.
  induction a as [|c a IH]; simpl; [reflexivity|].
  intros H. apply andb_true_iff in H as [Hc Ha].
  unfold not_comma in Hc. apply negb_true_iff in Hc.
  now rewrite Hc, (IH Ha).
Qed.

Lemma split_comma_join x l :
  Forall (fun t => all_chars not_comma t = true) (x :: l) ->
  split_comma (join ", " (x :: l)) = x :: map (String " "%char) l.
Proof.
  revert x. induction l as [|y l IH]; intros x H.
  - inversion H; subst. now apply split_comma_single.
  - inversion H as [|? ? Hx Hl]; subst.
    change (join ", " (x :: y :: l))
      with (String.append x
              (String ","%char (String " "%char (join ", " (y :: l))))).
    rewrite (split_comma_app _ _ Hx). f_equal.
    change (split_comma (String " "%char (join ", " (y :: l))))
      with (match split_comma (join ", " (y :: l)) with
            | [] => [String " "%char EmptyString]
            | t :: ts => String " "%char t :: ts
            end).
    now rewrite (IH y Hl).
Qed.

(** X13. Every ingredient that [MealMaker.suggest] hands to the engine is
    non-empty, trimmed, lower-case and free of commas. *)
Theorem X13_suggest_ingredients_are_clean (ingredients_string : string) :
  Forall (fun t => t <> EmptyString
                   /\ PyStr.strip t = t
                   /\ PyStr.lower t = t
                   /\ all_chars not_comma t = true)
    (suggest_ingredients_list ingredients_string).
Proof.
  unfold suggest_ingredients_list. apply List.Forall_forall. intros t Ht.
  apply in_map_iff in Ht as (i & <- & Hi).
  apply filter_In in Hi as [Hi Htruthy].
  pose proof (split_comma_pieces ingredients_string) as Hp.
  rewrite List.Forall_forall in Hp. specialize (Hp i Hi).
  split; [|split; [|split]].
  - destruct (PyStr.strip i); [discriminate|discriminate].
  - now rewrite PyStrFacts.strip_lower, PyStrFacts.strip_idem.
  - apply PyStrFacts.lower_idem.
  - destruct (all_chars_lower_classes (PyStr.strip i)) as [_ ->].
    now apply all_chars_strip.
Qed.

(** X14. Round trip with the card's label: for a list of non-empty,
    trimmed, lower-case, comma-free ingredients (they may hold inner
    whitespace, as "olive oil" does), the text [", ".join(l)] that a card
    shows is read back by [MealMaker.suggest] as the list [l]. *)
Theorem X14_suggest_reads_back_a_joined_list (l : list string) :
  Forall (fun t => t <> EmptyString
                   /\ PyStr.strip t = t
                   /\ PyStr.lower t = t
                   /\ all_chars not_comma t = true) l ->
  suggest_ingredients_list (join ", " l) = l.
Proof.
  intros H. unfold suggest_ingredients_list.
  destruct l as [|x l]; [reflexivity|].
  rewrite split_comma_join
    by (eapply List.Forall_impl; [|exact H]; intros t Ht; apply Ht).
  inversion H as [|? ? (Hne & Hs & Hl & _) Hrest]; subst.
  simpl. rewrite Hs. destruct x as [|c x]; [congruence|]. simpl.
  rewrite Hs, Hl. f_equal.
  clear H Hne Hs Hl. induction Hrest as [|t l (Hne & Hs & Hl & _) _ IH];
    simpl; [reflexivity|].
  change (PyStr.strip (String " "%char t)) with (PyStr.strip t).
  rewrite Hs. destruct t as [|d t]; [congruence|]. simpl.
  change (PyStr.strip (String " "%char (String d t)))
    with (PyStr.strip (String d t)).
  now rewrite Hs, Hl, IH.
Qed.

Lemma X14_suggest_reads_back_a_joined_list_witness :
  suggest_ingredients_list (join ", " ["pasta"; "olive oil"; "salt"])
  = ["pasta"; "olive oil"; "salt"].
Proof.
  apply (X14_suggest_reads_back_a_joined_list ["pasta"; "olive oil"; "salt"]).
  repeat constructor; try discriminate; vm_compute; reflexivity.
Defined.

(** ** Typing a recipe's ingredients as its card shows them *)

Lemma replace_comma_id s :
  all_chars not_comma s = true -> PyStr.replace_comma s = s.
Proof.
  induction s as [|c s IH]; simpl; [reflexivity|].
  intros H. apply andb_true_iff in H as [Hc Hs].
  unfold not_comma in Hc. apply negb_true_iff in Hc.
  now rewrite Hc, (IH Hs).
Qed.

Lemma split_from_word s : forall cur,
  all_chars not_space s = true ->
  PyStr.split_from s cur
  = PyStr.flush (rev (list_ascii_of_string s) ++ cur) [].
Proof.
  induction s as [|c s IH]; intros cur H; simpl; [reflexivity|].
  apply andb_true_iff in H as [Hc Hs].
  unfold not_space in Hc. apply negb_true_iff in Hc.
  rewrite Hc, (IH _ Hs), <- app_assoc. reflexivity.
Qed.

Lemma split_word s :
  s <> EmptyString -> all_chars not_space s = true -> PyStr.split s = [s].
Proof.
  intros Hne H. unfold PyStr.split.
  rewrite (split_from_word s [] H), app_nil_r.
  destruct s as [|c s]; [congruence|].
  unfold PyStr.flush.
  destruct (rev (list_ascii_of_string (String c s))) as [|d l] eqn:E.
  - apply (f_equal (@rev ascii)) in E. rewrite rev_involutive in E.
    discriminate E.
  - rewrite <- E, rev_involutive, string_of_list_ascii_of_string.
    reflexivity.
Qed.

Lemma on_search_reads_back l :
  Forall one_word l -> on_search_ingredients (join ", " l) = l.
Proof.
  intros H. rewrite on_search_ingredients_split.
  induction H as [|x l (Hne & Hsp & Hco & Hlow) Hl IH]; [reflexivity|].
  destruct l as [|y l].
  - simpl. rewrite Hlow, (replace_comma_id x Hco). now apply split_word.
  - set (rest := join ", " (y :: l)) in *.
    change (join ", " (x :: y :: l))
      with (String.append x (String ","%char (String " "%char rest))).
    rewrite lower_append, replace_comma_append, Hlow, (replace_comma_id x Hco).
    change (PyStr.replace_comma
              (PyStr.lower (String ","%char (String " "%char rest))))
      with (String " "%char
              (String " "%char (PyStr.replace_comma (PyStr.lower rest)))).
    unfold PyStr.split at 1.
    rewrite (split_from_app_space x " "%char) by reflexivity.
    change (PyStr.split_from x []) with (PyStr.split x).
    rewrite (split_word x Hne Hsp).
    change (PyStr.split_from
              (String " "%char (PyStr.replace_comma (PyStr.lower rest))) [])
      with (PyStr.split (PyStr.replace_comma (PyStr.lower rest))).
    now rewrite IH.
Qed.

Lemma score_value_Qeq_1 user_set r :
  (score_value user_set r == 1)%Q -> score_value user_set r = 1%Q.
Proof.
  unfold score_value. intros H. rewrite Qred_correct in H.
  apply Qred_complete in H. exact H.
Qed.

(** The first element of the sorted list has the largest score. *)
Lemma sort_desc_head_max {A} (key : A -> Q) (l : list A) x :
  In x l ->
  exists y tl, sort_desc key l = y :: tl /\ In y l /\ (key x <= key y)%Q.
Proof.
  intros Hx.
  pose proof (sort_desc_perm key l) as HP.
  pose proof (sort_desc_sorted key l) as HS.
  assert (Hx' : In x (sort_desc key l)) by (eapply Permutation_in; eauto).
  destruct (sort_desc key l) as [|y tl]; [destruct Hx'|].
  exists y, tl. split; [reflexivity|]. split.
  - eapply Permutation_in; [symmetry; exact HP|now left].
  - inversion HS as [|? ? _ Hy]; subst. destruct Hx' as [->|Hin].
    + apply Qle_refl.
    + rewrite List.Forall_forall in Hy. now apply Hy.
Qed.

(** X15. Typing the ingredients of a catalog recipe as its card shows
    them, joined by [", "], gives that recipe a full match when its
    ingredient names are lower-case single words: [on_search] reads the text
    back as the recipe's ingredient list, and the first result of the search
    has the score 1. *)
Theorem X15_typing_a_card_gives_a_full_match (r : Recipe) (g : globals) :
  In r (g_recipes g) ->
  r_ingredients r <> [] ->
  Forall one_word (r_ingredients r) ->
  let text := join ", " (r_ingredients r) in
  on_search_ingredients text = r_ingredients r
  /\ exists best rest,
       on_search text g = (inr (best :: rest), g) /\ score best = 1%Q.
Proof.
  intros Hr Hne Hwords text.
  assert (E : on_search_ingredients text = r_ingredients r)
    by now apply on_search_reads_back.
  split; [exact E|].
  unfold on_search. rewrite E, suggest_recipes_run.
  set (us := user_set_of (r_ingredients r)).
  assert (H1 : score_value us r = 1%Q).
  { apply score_value_one_iff. split; [exact Hne|]. intros i Hi.
    apply elem_of_user_set_of. exists i.
    rewrite List.Forall_forall in Hwords.
    destruct (Hwords i Hi) as (Hi0 & Hsp & _ & Hlow).
    rewrite (strip_no_space i Hsp). now rewrite Hlow. }
  destruct (sort_desc_head_max score
              (map (suggestion_of us) (g_recipes g)) (suggestion_of us r))
    as (y & tl & -> & Hy & Hle); [now apply in_map|].
  exists y, (take 2 tl). split; [reflexivity|].
  apply in_map_iff in Hy as (r0 & <- & _). simpl in *.
  apply score_value_Qeq_1, Qle_antisym.
  - apply score_value_bounds.
  - now rewrite H1 in Hle.
Qed.

Lemma X15_typing_a_card_gives_a_full_match_witness :
  let r := mkRecipe "Lentil Soup"
             ["lentils"; "carrot"; "onion"; "celery"; "garlic"; "salt"]
             "Simmer all ingredients for 30 min."
             ["vegan"; "cheap"; "batch-cooking"] in
  let text := join ", " (r_ingredients r) in
  on_search_ingredients text = r_ingredients r
  /\ exists best rest,
       on_search text module_globals = (inr (best :: rest), module_globals)
       /\ score best = 1%Q.
Proof.
  intros r.
  apply (X15_typing_a_card_gives_a_full_match r module_globals).
  - vm_compute. tauto.
  - discriminate.
  - repeat constructor; try discriminate; vm_compute; reflexivity.
Defined.

(** ** The spinner *)

Lemma advance_range angle : (0 <= advance angle < 360)%Z.
Proof. unfold advance. apply Z.mod_pos_bound. lia. Qed.

Lemma advance_n_closed n : forall angle,
  advance_n n angle = ((angle + 6 * Z.of_nat n) mod 360)%Z
  \/ (n = 0 /\ advance_n n angle = angle).
Proof.
  induction n as [|n IH]; intros angle; [right; auto|left].
  simpl advance_n. unfold advance at 1.
  destruct (IH angle) as [->|[-> ->]].
  - rewrite Zplus_mod_idemp_l. f_equal. lia.
  - simpl. f_equal.
Qed.

(** X16. Whatever integer the angle holds, after one tick of the timer it
    is in [0, 360) and stays there; [n >= 1] ticks from [angle] lead to
    [(angle + 6 n) % 360], so 60 more ticks bring back the same angle. *)
Theorem X16_spinner_angle (angle : Z) (n : nat) :
  (0 <= advance_n (S n) angle < 360)%Z
  /\ advance_n (S n) angle = ((angle + 6 * Z.of_nat (S n)) mod 360)%Z
  /\ advance_n (60 + S n) angle = advance_n (S n) angle.
Proof.
  split; [apply advance_range|].
  assert (H : forall m, advance_n (S m) angle
                        = ((angle + 6 * Z.of_nat (S m)) mod 360)%Z).
  { intros m. destruct (advance_n_closed (S m) angle) as [E|[E _]];
      [exact E|discriminate]. }
  split; [apply H|].
  change (60 + S n) with (S (60 + n)). rewrite !H.
  replace (angle + 6 * Z.of_nat (S (60 + n)))%Z
    with (angle + 6 * Z.of_nat (S n) + 1 * 360)%Z by lia.
  apply Z_mod_plus_full.
Qed.

(** ** The cards of [show_recipe_results] *)

Lemma animate_cards_lookup {A} (results : list A) : forall idx y k r,
  results !! k = Some r ->
  animate_cards results idx y !! k
  = Some (r, animate_in ((idx + Z.of_nat k) * 200) 800 (y + 140 * Z.of_nat k)).
Proof.
  induction results as [|x results IH]; intros idx y k r H; [discriminate|].
  destruct k as [|k].
  - injection H as ->. cbn [animate_cards lookup list_lookup].
    replace (idx + Z.of_nat 0)%Z with idx by lia.
    replace (y + 140 * Z.of_nat 0)%Z with y by lia. reflexivity.
  - change (animate_cards (x :: results) idx y !! S k)
      with (animate_cards results (idx + 1) (y + 140) !! k).
    rewrite (IH _ _ _ _ H).
    replace (idx + 1 + Z.of_nat k)%Z with (idx + Z.of_nat (S k))%Z by lia.
    replace (y + 140 + 140 * Z.of_nat k)%Z
      with (y + 140 * Z.of_nat (S k))%Z by lia.
    reflexivity.
Qed.

Lemma animate_cards_length {A} (results : list A) : forall idx y,
  length (animate_cards results idx y) = length results.
Proof.
  induction results as [|x results IH]; intros idx y; simpl;
    [|rewrite IH]; reflexivity.
Qed.

(** X17. [show_recipe_results] starts one animation per result, in the
    order of the results: the card of the [k]-th result (from 0) runs for
    [450 + 200 k] ms, from [y = 800] to [y = 140 k], with the fixed
    rectangle [x = 20], [340] wide and [120] high; so the end rectangles of
    two different cards do not overlap, the later one starting 20 below the
    bottom of the earlier one or lower. *)
Theorem X17_cards_are_stacked_without_overlap {A} (results : list A) :
  length (show_recipe_results results) = length results
  /\ (forall k r, results !! k = Some r ->
        show_recipe_results results !! k
        = Some (r, mkAnimation (mkQRect 20 800 340 120)
                     (mkQRect 20 (140 * Z.of_nat k) 340 120)
                     (450 + 200 * Z.of_nat k)))
  /\ (forall j k cj ck,
        j < k ->
        show_recipe_results results !! j = Some cj ->
        show_recipe_results results !! k = Some ck ->
        (ry (end_value (snd cj)) + rh (end_value (snd cj)) + 20
         <= ry (end_value (snd ck)))%Z
        /\ (duration (snd cj) < duration (snd ck))%Z).
Proof.
  unfold show_recipe_results.
  assert (Hlook : forall k r, results !! k = Some r ->
            animate_cards results 0 0 !! k
            = Some (r, mkAnimation (mkQRect 20 800 340 120)
                         (mkQRect 20 (140 * Z.of_nat k) 340 120)
                         (450 + 200 * Z.of_nat k))).
  { intros k r H. rewrite (animate_cards_lookup results 0 0 k r H).
    unfold animate_in.
    replace ((0 + Z.of_nat k) * 200)%Z with (200 * Z.of_nat k)%Z by lia.
    replace (0 + 140 * Z.of_nat k)%Z with (140 * Z.of_nat k)%Z by lia.
    reflexivity. }
  split; [apply animate_cards_length|]. split; [exact Hlook|].
  intros j k cj ck Hjk Hj Hk.
  destruct (results !! j) as [rj|] eqn:Ej.
  - destruct (results !! k) as [rk|] eqn:Ek.
    + rewrite (Hlook j rj Ej) in Hj. rewrite (Hlook k rk Ek) in Hk.
      injection Hj as <-. injection Hk as <-. simpl. lia.
    + apply lookup_ge_None in Ek. apply lookup_lt_Some in Hk.
      rewrite animate_cards_length in Hk. lia.
  - apply lookup_ge_None in Ej. apply lookup_lt_Some in Hj.
    rewrite animate_cards_length in Hj. lia.
Qed.
